(** * Two-material beam deflections: a shallow embedding of
      [compute_deflections.py]

    Number model.  Python's [float] and NumPy's [float64] are embedded as
    exact rationals [Q]: [+], [-], [*], [**] are the exact operations and
    [/] is Python's checked division, which raises [ZeroDivisionError] on a
    zero divisor.  Rounding error of binary floating point is outside this
    model; equalities between computed values are stated with [==]. *)

From Stdlib Require Import QArith Qround Qfield Qabs Qpower ZArith Lia Lqa List
  Sorted PrimFloat.
From stdpp Require Import base strings gmap.
Import ListNotations.

Local Open Scope Q_scope.

(** ** Python exceptions and the error monad of the pure formulas *)

Inductive exn : Type :=
| ZeroDivisionError
| EOFError
| ValueError.

Definition exc (A : Type) : Type := (exn + A)%type.

Definition ret {A} (a : A) : exc A := inr a.
Definition raise {A} (e : exn) : exc A := inl e.
Definition bind {A B} (m : exc A) (k : A → exc B) : exc B :=
  match m with
  | inl e => inl e
  | inr a => k a
  end.

Declare Scope exc_scope.
Delimit Scope exc_scope with exc.
Notation "x <- m ;; k" := (bind m (fun x => k))
  (at level 100, m at next level, right associativity) : exc_scope.

(** Python's [a / b] on floats. *)
Definition pydiv (a b : Q) : exc Q :=
  if Qeq_bool b 0 then raise ZeroDivisionError else ret (a / b).

Infix "//" := pydiv (at level 40, left associativity) : Q_scope.

(** The value an [exc Q] computation returned (0 when it raised). *)
Definition val (m : exc Q) : Q :=
  match m with
  | inr v => v
  | inl _ => 0
  end.


(** ** Deflection model *)

(** [y1(x, E1, I, L, w)]: deflection for [0 <= x < T]. *)
Definition y1 (x E1 I L w : Q) : exc Q :=
  (q1 <- (- w) // (24 * E1 * I) ;;
   q2 <- (w * L ^ 3) // (6 * E1 * I) ;;
   q3 <- (w * L ^ 4) // (24 * E1 * I) ;;
   ret (q1 * (L - x) ^ 4 - q2 * x + q3))%exc.

(** [y2(x, E1, E2, I, L, T, w)]: deflection for [T <= x <= L]. *)
Definition y2 (x E1 E2 I L T w : Q) : exc Q :=
  (q1 <- (- w) // (24 * E2 * I) ;;
   let term1 := q1 * (L - x) ^ 4 in
   c1 <- (- w) // (6 * I) ;;
   c2 <- (L ^ 3 - (L - T) ^ 3) // E1 ;;
   c3 <- (L - T) ^ 3 // E2 ;;
   let coefficient := c1 * (c2 + c3) in
   let term2 := coefficient * x in
   q3 <- w // (24 * E1 * I) ;;
   let term3 := q3 * (L ^ 4 - (L - T) ^ 4 - 4 * L ^ 3 * T) in
   q4 <- w // (24 * E2 * I) ;;
   let term4 := q4 * (L - T) ^ 4 in
   let term5 := - coefficient * T in
   ret (term1 + term2 + term3 + term4 + term5))%exc.

(** [theta1(x, E1, I, L, w)]: slope for [0 <= x < T]. *)
Definition theta1 (x E1 I L w : Q) : exc Q :=
  (q1 <- w // (6 * E1 * I) ;;
   q2 <- (w * L ^ 3) // (6 * E1 * I) ;;
   ret (q1 * (L - x) ^ 3 - q2))%exc.

(** [theta2(x, E1, E2, I, L, T, w)]: slope for [T <= x <= L]. *)
Definition theta2 (x E1 E2 I L T w : Q) : exc Q :=
  (q1 <- w // (6 * E2 * I) ;;
   let term1 := q1 * (L - x) ^ 3 in
   c1 <- (- w) // (6 * I) ;;
   c2 <- (L ^ 3 - (L - T) ^ 3) // E1 ;;
   c3 <- (L - T) ^ 3 // E2 ;;
   let coefficient := c1 * (c2 + c3) in
   ret (term1 + coefficient))%exc.

(** ** Library interface

    Module [beam_library] is imported by the program, not defined in it.
    Its objects are taken as records of the attributes the program reads:
    [beam.name], [beam.length], [beam.moment_of_inertia()], [material.name],
    [material.E], [load.name], [load.w], and the three accessors of
    [BeamLibrary], each returning a Python list. *)

Module Beam.
Record t : Type := Build
  { name : string; length : Q; moment_of_inertia : Q }.
End Beam.

Module Material.
Record t : Type := Build { name : string; E : Q }.
End Material.

Module Load.
Record t : Type := Build { name : string; w : Q }.
End Load.

Module BeamLibrary.
Record t : Type := Build
  { get_materials : list Material.t;
    get_beams : list Beam.t;
    get_loads : list Load.t }.
End BeamLibrary.

(** ** NumPy and itertools functions used by the sweep *)

Definition Qltb (a b : Q) : bool := negb (Qle_bool b a).
Infix "<?" := Qltb (at level 70, no associativity) : Q_scope.

(** [np.arange(start, stop, step)]: [ceil((stop - start) / step)] values
    [start + i * step]. *)
Definition arange (start stop step : Q) : list Q :=
  map (fun i : nat => start + inject_Z (Z.of_nat i) * step)
      (seq 0 (Z.to_nat (Qceiling ((stop - start) / step)))).

(** Round to the nearest integer, ties to the even one. *)
Definition rint (q : Q) : Z :=
  let f := Qfloor q in
  match Qcompare (q - inject_Z f) (1 # 2) with
  | Lt => f
  | Gt => (f + 1)%Z
  | Eq => if Z.even f then f else (f + 1)%Z
  end.

(** [round(x, ndigits)] on a [float64]. *)
Definition round (x : Q) (ndigits : Z) : Q :=
  inject_Z (rint (x * 10 ^ ndigits)) / 10 ^ ndigits.

(** The factor [180.0 / pi] of [np.degrees], as the binary64 number it is:
    57.29577951308232 = 1007958012753983 / 2^44. *)
Definition rad2deg : Q := 1007958012753983 # 17592186044416.

Definition degrees (x : Q) : Q := x * rad2deg.

(** [itertools.product(iterable, repeat=n)], as in its documentation:
    [result = [[]]], then for each of the [n] pools
    [result = [x + [y] for x in result for y in pool]]. *)
Definition product {A} (iterable : list A) (repeat : nat) : list (list A) :=
  fold_left
    (fun result pool => flat_map (fun x => map (fun y => x ++ [y]) pool) result)
    (replicate repeat iterable) [[]].

(** ** Console, CSV file and the I/O monad *)

(** A line typed at the prompt, seen through [float(T_input)]: a finite
    number, [inf]/[nan], or text on which [float] raises [ValueError]. *)
Inductive console_line : Type :=
| FloatLine (T : Q)
| NonFiniteLine
| GarbageLine.

Inductive message : Type :=
| NoBeams
| NoLoads
| NoMaterials
| ConfiguringBeam (name : string)
| PromptT (name : string) (L : Q)
| TOutOfRange (L : Q)
| InvalidInput
| ResultsWritten (output_filename : string).

Inductive csv_row : Type :=
| Titles (columns : list string)
| Values (beam load material1 material2 : string) (x y theta : Q).

Record world : Type := World
  { stdin : list console_line;
    stdout : list message;
    file : option (list csv_row) }.

Definition io (A : Type) : Type := world → exc A * world.

Definition io_ret {A} (a : A) : io A := fun s => (ret a, s).

Definition io_bind {A B} (m : io A) (k : A → io B) : io B :=
  fun s =>
    match m s with
    | (inl e, s') => (inl e, s')
    | (inr a, s') => k a s'
    end.

Definition lift {A} (m : exc A) : io A := fun s => (m, s).

Declare Scope io_scope.
Delimit Scope io_scope with io.
Notation "x <- m ;; k" := (io_bind m (fun x => k))
  (at level 100, m at next level, right associativity) : io_scope.
Notation "m ;; k" := (io_bind m (fun _ => k))
  (at level 100, right associativity) : io_scope.

Definition print (msg : message) : io unit :=
  fun s => (ret tt, World (stdin s) (stdout s ++ [msg]) (file s)).

(** [open(output_filename, mode='w')]: the file is created or truncated. *)
Definition open_w : io unit :=
  fun s => (ret tt, World (stdin s) (stdout s) (Some [])).

Definition writerow (row : csv_row) : io unit :=
  fun s =>
    (ret tt, World (stdin s) (stdout s)
                  (Some (match file s with
                         | Some rows => rows
                         | None => []
                         end ++ [row]))).

Fixpoint for_each {A} (l : list A) (body : A → io unit) : io unit :=
  match l with
  | [] => io_ret tt
  | a :: l' => (body a ;; for_each l' body)%io
  end.

(** A [for] loop that updates a local variable. *)
Fixpoint for_each_with {A S} (l : list A) (acc : S) (body : S → A → io S)
  : io S :=
  match l with
  | [] => io_ret acc
  | a :: l' => (acc' <- body acc a ;; for_each_with l' acc' body)%io
  end.

(** The [while True] loop asking for the transition point: every round
    prints the prompt and reads one line; it ends at the first finite
    [T] with [0 < T < L], and [input] raises [EOFError] when the console
    is exhausted.  Returns the outcome, the unread lines and what was
    printed. *)
Fixpoint prompt_T_loop (name : string) (L : Q) (lines : list console_line)
  : exc Q * list console_line * list message :=
  match lines with
  | [] => (raise EOFError, [], [PromptT name L])
  | line :: rest =>
      match line with
      | FloatLine T =>
          if (0 <? T) && (T <? L) then (ret T, rest, [PromptT name L])
          else
            let '(r, rest', out) := prompt_T_loop name L rest in
            (r, rest', PromptT name L :: TOutOfRange L :: out)
      | NonFiniteLine =>
          let '(r, rest', out) := prompt_T_loop name L rest in
          (r, rest', PromptT name L :: TOutOfRange L :: out)
      | GarbageLine =>
          let '(r, rest', out) := prompt_T_loop name L rest in
          (r, rest', PromptT name L :: InvalidInput :: out)
      end
  end.

Definition prompt_T (name : string) (L : Q) : io Q :=
  fun s =>
    let '(r, rest, out) := prompt_T_loop name L (stdin s) in
    (r, World rest (stdout s ++ out) (file s)).

(** ** Sweep engine *)

Definition step : Q := 25 # 10000.

Definition header : csv_row :=
  Titles ["Beam"; "Load"; "Material1"; "Material2";
          "x (m)"; "y(x) (m)"; "theta(x) (degrees)"]%string.

(** The sample points of a beam of length [L]. *)
Definition x_values (L : Q) : list Q := arange 0 (L + step) step.

(** Body of the innermost loop: one evaluation and one CSV row. *)
Definition evaluate (beam : Beam.t) (load : Load.t)
    (material1 material2 : Material.t) (T x : Q) : io unit :=
  let I := Beam.moment_of_inertia beam in
  let L := Beam.length beam in
  let w := Load.w load in
  let E1 := Material.E material1 in
  let E2 := Material.E material2 in
  (y_theta <- lift (if x <? T
                    then (y <- y1 x E1 I L w ;;
                          theta <- theta1 x E1 I L w ;;
                          ret (y, theta))%exc
                    else (y <- y2 x E1 E2 I L T w ;;
                          theta <- theta2 x E1 E2 I L T w ;;
                          ret (y, theta))%exc) ;;
   let theta_degrees := degrees (snd y_theta) in
   writerow (Values (Beam.name beam) (Load.name load)
                    (Material.name material1) (Material.name material2)
                    (round x 4) (fst y_theta) (round theta_degrees 6)))%io.

(** Body of the loop over beams, with the dictionary of transition points
    as the updated local variable. *)
Definition sweep_beam (materials : list Material.t) (loads : list Load.t)
    (transition_points : gmap string Q) (beam : Beam.t)
  : io (gmap string Q) :=
  let L := Beam.length beam in
  (print (ConfiguringBeam (Beam.name beam)) ;;
   T <- prompt_T (Beam.name beam) L ;;
   let transition_points := <[Beam.name beam := T]> transition_points in
   for_each loads (fun load =>
     for_each (product materials 2) (fun pair =>
       match pair with
       | [material1; material2] =>
           for_each (x_values L) (evaluate beam load material1 material2 T)
       | _ => lift (raise ValueError)
       end)) ;;
   io_ret transition_points)%io.

Definition compute_deflections (library : BeamLibrary.t)
    (output_filename : string) : io (gmap string Q) :=
  let materials := BeamLibrary.get_materials library in
  let beams := BeamLibrary.get_beams library in
  let loads := BeamLibrary.get_loads library in
  match beams, loads, materials with
  | [], _, _ => (print NoBeams ;; io_ret ∅)%io
  | _, [], _ => (print NoLoads ;; io_ret ∅)%io
  | _, _, [] => (print NoMaterials ;; io_ret ∅)%io
  | _, _, _ =>
      (open_w ;;
       writerow header ;;
       transition_points <- for_each_with beams ∅ (sweep_beam materials loads) ;;
       print (ResultsWritten output_filename) ;;
       io_ret transition_points)%io
  end.

(** The evaluation records in the file a run left behind (none when the
    file was not written). *)
Definition is_values (row : csv_row) : bool :=
  match row with
  | Values _ _ _ _ _ _ _ => true
  | Titles _ => false
  end.

Definition evaluation_records (s : world) : list csv_row :=
  match file s with
  | Some rows => List.filter is_values rows
  | None => []
  end.

(** ** Auxiliary definitions of the statements *)

(** The console answers every beam in turn: the prompt loop of each beam
    ends with an accepted transition point. *)
Fixpoint answers (beams : list Beam.t) (lines : list console_line)
  : option (list Q) :=
  match beams with
  | [] => Some []
  | beam :: beams' =>
      match prompt_T_loop (Beam.name beam) (Beam.length beam) lines with
      | (inr T, rest, _) => option_map (cons T) (answers beams' rest)
      | (inl _, _, _) => None
      end
  end.

Definition valid_library (library : BeamLibrary.t) : Prop :=
  Forall (fun m => 0 < Material.E m) (BeamLibrary.get_materials library) ∧
  Forall (fun b => 0 < Beam.moment_of_inertia b)
         (BeamLibrary.get_beams library).

(** The row written for sample [x]. *)
Definition record (beam : Beam.t) (load : Load.t)
    (material1 material2 : Material.t) (T x : Q) : csv_row :=
  let I := Beam.moment_of_inertia beam in
  let L := Beam.length beam in
  let w := Load.w load in
  let E1 := Material.E material1 in
  let E2 := Material.E material2 in
  Values (Beam.name beam) (Load.name load)
         (Material.name material1) (Material.name material2)
         (round x 4)
         (val (if x <? T then y1 x E1 I L w else y2 x E1 E2 I L T w))
         (round (degrees (val (if x <? T then theta1 x E1 I L w
                               else theta2 x E1 E2 I L T w))) 6).

(** The records of one beam in the words of the specification: by load,
    then material1, then material2 over the full Cartesian square of the
    materials, then the samples in ascending order. *)
Definition beam_records (materials : list Material.t) (loads : list Load.t)
    (beam : Beam.t) (T : Q) : list csv_row :=
  flat_map (fun load =>
    flat_map (fun material1 =>
      flat_map (fun material2 =>
        map (record beam load material1 material2 T)
            (x_values (Beam.length beam)))
        materials)
      materials)
    loads.

(** All records, beam-major; every beam comes with its transition point. *)
Definition beam_major_records (materials : list Material.t)
    (loads : list Load.t) (beams_T : list (Beam.t * Q)) : list csv_row :=
  flat_map (fun bT : Beam.t * Q =>
              beam_records materials loads (fst bT) (snd bT))
           beams_T.



(** The dictionary after [transition_points[beam.name] = T] for every beam
    in turn. *)
Definition recorded (transition_points : gmap string Q)
    (beams_T : list (Beam.t * Q)) : gmap string Q :=
  fold_left (fun tp (bT : Beam.t * Q) => <[Beam.name (fst bT) := snd bT]> tp)
            beams_T transition_points.

(** A run starts with the lines waiting on the console, nothing printed
    and no output file written. *)
Definition initial_world (lines : list console_line) : world :=
  World lines [] None.

(** [m] returns normally and does nothing but append [rows] to the open
    file. *)
Definition appends (m : io unit) (rows : list csv_row) : Prop :=
  ∀ s content,
    file s = Some content →
    m s = (ret tt, World (stdin s) (stdout s) (Some (content ++ rows))).

(** ** Plotting

    Of [matplotlib.pyplot] the model keeps the current figure with its title
    and curves and the list of figures shown; axis labels, grid, legend and
    layout leave no trace in it.  [plt.plot] raises [ValueError] when its two
    sequences differ in length.  A colour of the colormap is named by the
    argument at which the colormap is asked. *)

Inductive plot_message : Type :=
| PlotNoBeams
| PlotNoLoads
| PlotNoMaterials
| PlottingBeam (name : string)
| UsingTransitionPoint (T : Q)
| ScriptCompleted.

Inductive color : Type :=
| Viridis (v : Q).

Record curve : Type := Curve
  { curve_x : list Q;
    curve_y : list Q;
    curve_label : string;
    curve_color : color }.

Record figure : Type := Figure
  { figure_title : string;
    figure_curves : list curve }.

Record canvas : Type := Canvas
  { printed : list plot_message;
    current : option figure;
    shown : list figure }.

(** The exceptions of the plotting code: those of the model and of the
    sweep, and the [IndexError] of a list index out of range. *)
Inductive plot_exn : Type :=
| Model (e : exn)
| IndexError.

Definition gui (A : Type) : Type := canvas → (plot_exn + A) * canvas.

Definition gui_ret {A} (a : A) : gui A := fun c => (inr a, c).

Definition gui_raise {A} (e : plot_exn) : gui A := fun c => (inl e, c).

Definition gui_bind {A B} (m : gui A) (k : A → gui B) : gui B :=
  fun c =>
    match m c with
    | (inl e, c') => (inl e, c')
    | (inr a, c') => k a c'
    end.

Definition gui_lift {A} (m : exc A) : gui A :=
  fun c =>
    (match m with
     | inl e => inl (Model e)
     | inr a => inr a
     end, c).

Declare Scope gui_scope.
Delimit Scope gui_scope with gui.
Notation "x <- m ;; k" := (gui_bind m (fun x => k))
  (at level 100, m at next level, right associativity) : gui_scope.
Notation "m ;; k" := (gui_bind m (fun _ => k))
  (at level 100, right associativity) : gui_scope.

Definition plot_print (msg : plot_message) : gui unit :=
  fun c => (inr tt, Canvas (printed c ++ [msg]) (current c) (shown c)).

(** [plt.figure(...)]: a new, empty current figure. *)
Definition plt_figure : gui unit :=
  fun c => (inr tt, Canvas (printed c) (Some (Figure "" [])) (shown c)).

Definition current_figure (c : canvas) : figure :=
  match current c with
  | Some fig => fig
  | None => Figure "" []
  end.

Definition plt_title (title : string) : gui unit :=
  fun c =>
    (inr tt,
     Canvas (printed c)
            (Some (Figure title (figure_curves (current_figure c))))
            (shown c)).

Definition plt_plot (x y : list Q) (label : string) (col : color) : gui unit :=
  fun c =>
    if Nat.eqb (length x) (length y)
    then (inr tt,
          Canvas (printed c)
                 (Some (Figure (figure_title (current_figure c))
                               (figure_curves (current_figure c)
                                ++ [Curve x y label col])))
                 (shown c))
    else (inl (Model ValueError), c).

(** [plt.show()]: the current figure is displayed and closed. *)
Definition plt_show : gui unit :=
  fun c =>
    (inr tt,
     Canvas (printed c) None
            (shown c ++ match current c with
                        | Some fig => [fig]
                        | None => []
                        end)).

Fixpoint gui_for_each {A} (l : list A) (body : A → gui unit) : gui unit :=
  match l with
  | [] => gui_ret tt
  | a :: l' => (body a ;; gui_for_each l' body)%gui
  end.

Fixpoint gui_for_each_with {A S} (l : list A) (acc : S) (body : S → A → gui S)
  : gui S :=
  match l with
  | [] => gui_ret acc
  | a :: l' => (acc' <- body acc a ;; gui_for_each_with l' acc' body)%gui
  end.

(** A loop of the pure model that updates a local variable. *)
Fixpoint fold_exc {A S} (l : list A) (acc : S) (body : S → A → exc S)
  : exc S :=
  match l with
  | [] => ret acc
  | a :: l' => (acc' <- body acc a ;; fold_exc l' acc' body)%exc
  end.

(** The list [theta_values] of one curve: the loops over the loads and over
    the samples both append to the same list. *)
Definition theta_values (loads : list Load.t) (x_values : list Q)
    (E1 E2 I L T : Q) : exc (list Q) :=
  fold_exc loads [] (fun theta_values load =>
    let w := Load.w load in
    fold_exc x_values theta_values (fun theta_values x =>
      (theta <- (if x <? T then theta1 x E1 I L w
                 else theta2 x E1 E2 I L T w) ;;
       let theta_degrees := degrees theta in
       ret (theta_values ++ [theta_degrees]))%exc)).

(** [[color_cycle(i / num_combinations) for i in range(num_combinations)]]. *)
Definition colors (num_combinations : nat) : list color :=
  map (fun i : nat =>
         Viridis (inject_Z (Z.of_nat i) / inject_Z (Z.of_nat num_combinations)))
      (seq 0 num_combinations).

(** Body of the loop over the pairs of materials: one curve, drawn in the
    colour number [color_idx]; returns the next [color_idx]. *)
Definition plot_pair (loads : list Load.t) (beam : Beam.t) (T : Q)
    (colors : list color) (color_idx : nat) (pair : list Material.t)
  : gui nat :=
  let I := Beam.moment_of_inertia beam in
  let L := Beam.length beam in
  match pair with
  | [material1; material2] =>
      let E1 := Material.E material1 in
      let E2 := Material.E material2 in
      let x_values := arange 0 (L + (25 # 10000)) (25 # 10000) in
      (theta_values <- gui_lift (theta_values loads x_values E1 E2 I L T) ;;
       let label := String.append (Material.name material1)
                      (String.append " & " (Material.name material2)) in
       col <- match colors !! color_idx with
              | Some col => gui_ret col
              | None => gui_raise IndexError
              end ;;
       plt_plot x_values theta_values label col ;;
       gui_ret (S color_idx))%gui
  | _ => gui_raise (Model ValueError)
  end.

(** Body of the loop over beams of [plot_deflections]. *)
Definition plot_beam (materials : list Material.t) (loads : list Load.t)
    (transition_points : gmap string Q) (beam : Beam.t) : gui unit :=
  let L := Beam.length beam in
  let T := default (L / 2) (transition_points !! Beam.name beam) in
  (plot_print (PlottingBeam (Beam.name beam)) ;;
   plot_print (UsingTransitionPoint T) ;;
   plt_figure ;;
   plt_title (String.append "Angular Deflection Curves for Beam: "
                            (Beam.name beam)) ;;
   let num_combinations := (length materials ^ 2)%nat in
   let colors := colors num_combinations in
   _ <- gui_for_each_with (product materials 2) 0%nat
          (plot_pair loads beam T colors) ;;
   plt_show)%gui.

Definition plot_deflections (library : BeamLibrary.t)
    (transition_points : gmap string Q) : gui unit :=
  let materials := BeamLibrary.get_materials library in
  let beams := BeamLibrary.get_beams library in
  let loads := BeamLibrary.get_loads library in
  match beams, loads, materials with
  | [], _, _ => plot_print PlotNoBeams
  | _, [], _ => plot_print PlotNoLoads
  | _, _, [] => plot_print PlotNoMaterials
  | _, _, _ => gui_for_each beams (plot_beam materials loads transition_points)
  end.

(** [main], on the library that [BeamLibrary()] builds. *)
Definition main (library : BeamLibrary.t) (s : world) (c : canvas)
  : (plot_exn + unit) * world * canvas :=
  match compute_deflections library "deflection_results.csv" s with
  | (inl e, s') => (inl (Model e), s', c)
  | (inr transition_points, s') =>
      match plot_deflections library transition_points c with
      | (inl e, c') => (inl e, s', c')
      | (inr _, c') =>
          (inr tt, s',
           Canvas (printed c' ++ [ScriptCompleted]) (current c') (shown c'))
      end
  end.

(** The curve drawn for the pair number [i] of a beam with one load. *)
Definition expected_curve (materials : list Material.t) (load : Load.t)
    (beam : Beam.t) (T : Q) (i : nat) (pair : Material.t * Material.t)
  : curve :=
  let I := Beam.moment_of_inertia beam in
  let L := Beam.length beam in
  let w := Load.w load in
  let E1 := Material.E (fst pair) in
  let E2 := Material.E (snd pair) in
  Curve (x_values L)
        (map (fun x => degrees (val (if x <? T then theta1 x E1 I L w
                                     else theta2 x E1 E2 I L T w)))
             (x_values L))
        (String.append (Material.name (fst pair))
           (String.append " & " (Material.name (snd pair))))
        (Viridis (inject_Z (Z.of_nat i)
                  / inject_Z (Z.of_nat (length materials ^ 2)))).

(** The figure of a beam with one load: one curve per ordered pair of
    materials, first material major. *)
Definition expected_figure (materials : list Material.t) (load : Load.t)
    (transition_points : gmap string Q) (beam : Beam.t) : figure :=
  let T := default (Beam.length beam / 2)
                   (transition_points !! Beam.name beam) in
  Figure (String.append "Angular Deflection Curves for Beam: " (Beam.name beam))
         (imap (expected_curve materials load beam T)
               (list_prod materials materials)).

(** What [plot_deflections] prints for the beams. *)
Definition plot_log (transition_points : gmap string Q)
    (beams : list Beam.t) : list plot_message :=
  flat_map (fun beam =>
              [PlottingBeam (Beam.name beam);
               UsingTransitionPoint
                 (default (Beam.length beam / 2)
                          (transition_points !! Beam.name beam))])
           beams.

(** ** Auxiliary definitions of the further properties *)

(** The prompt loop accepts a line: it is a finite number strictly between
    0 and [L]. *)
Definition accepted (L : Q) (line : console_line) : bool :=
  match line with
  | FloatLine T => (0 <? T) && (T <? L)
  | NonFiniteLine | GarbageLine => false
  end.

(** What is printed for a line that is not accepted. *)
Definition reply (L : Q) (line : console_line) : message :=
  match line with
  | GarbageLine => InvalidInput
  | FloatLine _ | NonFiniteLine => TOutOfRange L
  end.

(** The console output of the rounds that did not end the loop. *)
Definition retries (name : string) (L : Q) (lines : list console_line)
  : list message :=
  flat_map (fun line => [PromptT name L; reply L line]) lines.




(** ** A small library to run the program on *)

Definition example_library : BeamLibrary.t :=
  BeamLibrary.Build
    [Material.Build "steel" 200000000000; Material.Build "aluminium" 70000000000]
    [Beam.Build "short" (1 # 100) (8333 # 1000000000);
     Beam.Build "stub" (1 # 200) (8333 # 1000000000)]
    [Load.Build "light" 1000].

(** The user mistypes, gives a point outside the first beam, then answers
    both prompts. *)
Definition example_console : list console_line :=
  [GarbageLine; FloatLine 2; FloatLine (1 # 200); FloatLine (1 # 400)].

(** ** Facts about checked division *)

Lemma pydiv_ok (a b : Q) : ¬ b == 0 → a // b = ret (a / b).
Proof.
  intros Hb. unfold pydiv.
  destruct (Qeq_bool b 0) eqn:E; [|reflexivity].
  apply Qeq_bool_iff in E. contradiction.
Qed.

Lemma pydiv_zero (a b : Q) : b == 0 → a // b = raise ZeroDivisionError.
Proof.
  intros Hb. unfold pydiv.
  apply Qeq_bool_iff in Hb. rewrite Hb. reflexivity.
Qed.

Lemma Qmult_pos_neq0 (a b : Q) : 0 < a → 0 < b → ¬ a * b == 0.
Proof.
  intros Ha Hb Hab.
  pose proof (Qmult_lt_0_compat a b Ha Hb) as Hpos.
  rewrite Hab in Hpos. revert Hpos. apply Qlt_irrefl.
Qed.

Lemma Qpos_neq0 (a : Q) : 0 < a → ¬ a == 0.
Proof. intros Ha H0. rewrite H0 in Ha. revert Ha. apply Qlt_irrefl. Qed.

Section Divisors.
Variables E I : Q.
Hypothesis HE : 0 < E.
Hypothesis HI : 0 < I.

Lemma divisor_EI (k : Q) : 0 < k → ¬ k * E * I == 0.
Proof.
  intros Hk. apply Qmult_pos_neq0; [|assumption].
  apply Qmult_lt_0_compat; assumption.
Qed.

Lemma divisor_24EI : ¬ 24 * E * I == 0.
Proof. apply divisor_EI. reflexivity. Qed.

Lemma divisor_6EI : ¬ 6 * E * I == 0.
Proof. apply divisor_EI. reflexivity. Qed.

Lemma divisor_6I : ¬ 6 * I == 0.
Proof. apply Qmult_pos_neq0; [reflexivity | assumption]. Qed.
End Divisors.

(** Rewrites every checked division of the four formulas into the plain
    quotient, given that the material and section constants are positive. *)
Ltac divisions E1 E2 I HE1 HE2 HI :=
  unfold y1, y2, theta1, theta2;
  repeat first
    [ rewrite (pydiv_ok _ (24 * E1 * I)) by (apply divisor_24EI; assumption)
    | rewrite (pydiv_ok _ (24 * E2 * I)) by (apply divisor_24EI; assumption)
    | rewrite (pydiv_ok _ (6 * E1 * I)) by (apply divisor_6EI; assumption)
    | rewrite (pydiv_ok _ (6 * E2 * I)) by (apply divisor_6EI; assumption)
    | rewrite (pydiv_ok _ (6 * I)) by (apply divisor_6I; assumption)
    | rewrite (pydiv_ok _ E1) by (apply Qpos_neq0; assumption)
    | rewrite (pydiv_ok _ E2) by (apply Qpos_neq0; assumption) ];
  cbn [bind ret].


(** ** Theorems on the deflection model *)

Lemma y1_value (x E1 I L w : Q) :
  0 < E1 → 0 < I →
  y1 x E1 I L w =
  ret ((- w) / (24 * E1 * I) * (L - x) ^ 4
       - (w * L ^ 3) / (6 * E1 * I) * x + (w * L ^ 4) / (24 * E1 * I)).
Proof. intros HE1 HI. divisions E1 E1 I HE1 HE1 HI. reflexivity. Qed.

Lemma theta1_value (x E1 I L w : Q) :
  0 < E1 → 0 < I →
  theta1 x E1 I L w =
  ret (w / (6 * E1 * I) * (L - x) ^ 3 - (w * L ^ 3) / (6 * E1 * I)).
Proof. intros HE1 HI. divisions E1 E1 I HE1 HE1 HI. reflexivity. Qed.

Lemma y2_value (x E1 E2 I L T w : Q) :
  0 < E1 → 0 < E2 → 0 < I →
  y2 x E1 E2 I L T w =
  ret (let coefficient :=
         (- w) / (6 * I) * ((L ^ 3 - (L - T) ^ 3) / E1 + (L - T) ^ 3 / E2) in
       (- w) / (24 * E2 * I) * (L - x) ^ 4 + coefficient * x
       + w / (24 * E1 * I) * (L ^ 4 - (L - T) ^ 4 - 4 * L ^ 3 * T)
       + w / (24 * E2 * I) * (L - T) ^ 4 + - coefficient * T).
Proof. intros HE1 HE2 HI. divisions E1 E2 I HE1 HE2 HI. reflexivity. Qed.

Lemma theta2_value (x E1 E2 I L T w : Q) :
  0 < E1 → 0 < E2 → 0 < I →
  theta2 x E1 E2 I L T w =
  ret (w / (6 * E2 * I) * (L - x) ^ 3
       + (- w) / (6 * I) * ((L ^ 3 - (L - T) ^ 3) / E1 + (L - T) ^ 3 / E2)).
Proof. intros HE1 HE2 HI. divisions E1 E2 I HE1 HE2 HI. reflexivity. Qed.







(** The guard of C8 is needed: a zero second moment of area makes the very
    first division of [y1] raise. *)
Example y1_zero_inertia : y1 1 200 0 4 1000 = raise ZeroDivisionError.
Proof. reflexivity. Qed.





(** ** The sample points *)

Lemma step_pos : 0 < step.
Proof. reflexivity. Qed.

Lemma sample_count (L : Q) :
  Qceiling ((L + step - 0) / step) = Qceiling (L / step + 1).
Proof. apply Qceiling_comp. unfold step. field. Qed.

Lemma x_values_length (L : Q) :
  length (x_values L) = Z.to_nat (Qceiling (L / step + 1)).
Proof.
  unfold x_values, arange.
  rewrite length_map, length_seq, sample_count. reflexivity.
Qed.

Lemma x_values_In (L x : Q) :
  In x (x_values L) ↔
  ∃ i : nat, (Z.of_nat i < Qceiling (L / step + 1))%Z ∧
             x = 0 + inject_Z (Z.of_nat i) * step.
Proof.
  unfold x_values, arange. rewrite sample_count, in_map_iff.
  split.
  - intros (i & <- & Hi). apply in_seq in Hi. exists i. split; [lia | reflexivity].
  - intros (i & Hi & ->). exists i. split; [reflexivity |].
    apply in_seq. lia.
Qed.

Lemma sample_nonneg (i : nat) : 0 <= 0 + inject_Z (Z.of_nat i) * step.
Proof.
  rewrite Qplus_0_l. apply Qmult_le_0_compat; [| discriminate].
  rewrite <- (Zle_Qle 0). lia.
Qed.

Lemma sample_lt (i j : nat) :
  (i < j)%nat →
  0 + inject_Z (Z.of_nat i) * step < 0 + inject_Z (Z.of_nat j) * step.
Proof.
  intros Hij. rewrite !Qplus_0_l.
  apply Qmult_lt_compat_r; [apply step_pos |].
  rewrite <- Zlt_Qlt. lia.
Qed.

(** Whatever the length, the samples start at 0 and stay below
    [L + step]. *)
Lemma x_values_bounds (L : Q) :
  Forall (fun x => 0 <= x ∧ x < L + step) (x_values L).
Proof.
  apply List.Forall_forall. intros x Hx.
  apply x_values_In in Hx. destruct Hx as (i & Hi & ->).
  split; [apply sample_nonneg |].
  pose proof (Qceiling_lt (L / step + 1)) as Hc.
  assert (inject_Z (Z.of_nat i) < L / step + 1) as Hlt.
  { eapply Qle_lt_trans; [| exact Hc]. rewrite <- Zle_Qle. lia. }
  rewrite Qplus_0_l.
  assert (L + step == (L / step + 1) * step) as -> by (unfold step; field).
  apply Qmult_lt_compat_r; [apply step_pos | exact Hlt].
Qed.





(** ** List lemmas for the nested loops *)

Lemma flat_map_singleton {A B} (g : A → B) (l : list A) :
  flat_map (fun a => [g a]) l = map g l.
Proof. induction l as [|a l IH]; cbn; [reflexivity | now rewrite IH]. Qed.

Lemma flat_map_of_map {A B C} (f : B → list C) (g : A → B) (l : list A) :
  flat_map f (map g l) = flat_map (fun a => f (g a)) l.
Proof. induction l as [|a l IH]; cbn; [reflexivity | now rewrite IH]. Qed.

Lemma flat_map_of_flat_map {A B C} (f : B → list C) (g : A → list B)
    (l : list A) :
  flat_map f (flat_map g l) = flat_map (fun a => flat_map f (g a)) l.
Proof.
  induction l as [|a l IH]; cbn; [reflexivity |].
  now rewrite flat_map_app, IH.
Qed.

Lemma flat_map_empty {A B} (f : A → list B) (l : list A) :
  (∀ a, f a = []) → flat_map f l = [].
Proof.
  intros Hf. induction l as [|a l IH]; cbn; [reflexivity |].
  now rewrite Hf, IH.
Qed.

Lemma length_flat_map_const {A B} (f : A → list B) (l : list A) (n : nat) :
  (∀ a, length (f a) = n) → length (flat_map f l) = (length l * n)%nat.
Proof.
  intros Hf. induction l as [|a l IH]; cbn; [reflexivity |].
  rewrite length_app, Hf, IH. lia.
Qed.

(** [itertools.product(l, repeat=2)] is the Cartesian square of [l], first
    component major. *)
Lemma product_2 {A} (l : list A) :
  product l 2 = flat_map (fun a => map (fun b => [a; b]) l) l.
Proof.
  unfold product. cbn [replicate fold_left].
  cbn [flat_map]. rewrite app_nil_r, flat_map_of_map.
  apply flat_map_ext. intros a. reflexivity.
Qed.

(** ** The I/O monad on the open file *)

Lemma appends_ret : appends (io_ret tt) [].
Proof.
  intros s content Hs. unfold io_ret.
  rewrite app_nil_r, <- Hs. destruct s; reflexivity.
Qed.

Lemma appends_writerow (row : csv_row) : appends (writerow row) [row].
Proof. intros s content Hs. unfold writerow. rewrite Hs. reflexivity. Qed.

Lemma appends_seq (m k : io unit) (rows1 rows2 : list csv_row) :
  appends m rows1 → appends k rows2 →
  appends (m ;; k)%io (rows1 ++ rows2).
Proof.
  intros Hm Hk s content Hs. unfold io_bind.
  rewrite (Hm s content Hs). cbn.
  rewrite (Hk (World (stdin s) (stdout s) (Some (content ++ rows1)))
              (content ++ rows1) eq_refl). cbn.
  now rewrite app_assoc.
Qed.

Lemma appends_for_each {A} (l : list A) (body : A → io unit)
    (f : A → list csv_row) :
  (∀ a, In a l → appends (body a) (f a)) →
  appends (for_each l body) (flat_map f l).
Proof.
  induction l as [|a l IH]; intros Hbody; cbn [for_each flat_map].
  - apply appends_ret.
  - apply appends_seq.
    + apply Hbody. now left.
    + apply IH. intros b Hb. apply Hbody. now right.
Qed.

Lemma val_ret (v : Q) : val (ret v) = v.
Proof. reflexivity. Qed.

(** One pass of the innermost loop writes the record of its sample. *)
Lemma evaluate_appends (beam : Beam.t) (load : Load.t)
    (material1 material2 : Material.t) (T x : Q) :
  0 < Material.E material1 → 0 < Material.E material2 →
  0 < Beam.moment_of_inertia beam →
  appends (evaluate beam load material1 material2 T x)
          [record beam load material1 material2 T x].
Proof.
  intros HE1 HE2 HI s content Hs.
  unfold evaluate, record, io_bind, lift.
  destruct (x <? T).
  - rewrite y1_value, theta1_value by assumption. cbn [bind ret fst snd].
    rewrite !val_ret. unfold writerow. rewrite Hs. reflexivity.
  - rewrite y2_value, theta2_value by assumption. cbn [bind ret fst snd].
    rewrite !val_ret. unfold writerow. rewrite Hs. reflexivity.
Qed.

(** The loop over [itertools.product(materials, repeat=2)]. *)
Lemma pairs_appends (materials : list Material.t) (beam : Beam.t)
    (load : Load.t) (T : Q) :
  Forall (fun m => 0 < Material.E m) materials →
  0 < Beam.moment_of_inertia beam →
  appends
    (for_each (product materials 2) (fun pair =>
       match pair with
       | [material1; material2] =>
           for_each (x_values (Beam.length beam))
                    (evaluate beam load material1 material2 T)
       | _ => lift (raise ValueError)
       end))
    (flat_map (fun material1 =>
       flat_map (fun material2 =>
         map (record beam load material1 material2 T)
             (x_values (Beam.length beam)))
         materials)
       materials).
Proof.
  intros HE HI.
  pose (f := fun pair : list Material.t =>
               match pair with
               | [material1; material2] =>
                   map (record beam load material1 material2 T)
                       (x_values (Beam.length beam))
               | _ => []
               end).
  assert (flat_map f (product materials 2) =
          flat_map (fun material1 =>
            flat_map (fun material2 =>
              map (record beam load material1 material2 T)
                  (x_values (Beam.length beam)))
              materials)
            materials) as <-.
  { rewrite product_2, flat_map_of_flat_map.
    apply flat_map_ext. intros m1. now rewrite flat_map_of_map. }
  apply appends_for_each. intros pair Hpair.
  rewrite product_2 in Hpair. apply in_flat_map in Hpair.
  destruct Hpair as (m1 & Hm1 & Hpair). apply in_map_iff in Hpair.
  destruct Hpair as (m2 & <- & Hm2). cbn [f].
  rewrite <- flat_map_singleton.
  apply appends_for_each. intros x _.
  pose proof (proj1 (List.Forall_forall _ _) HE) as HE'.
  apply evaluate_appends; auto.
Qed.

(** ** The prompt loop *)

Lemma Qltb_lt (a b : Q) : (a <? b) = true ↔ a < b.
Proof.
  unfold Qltb. rewrite negb_true_iff. split.
  - intros H. apply Qnot_le_lt. intros Hle.
    apply Qle_bool_iff in Hle. congruence.
  - intros H. destruct (Qle_bool b a) eqn:E; [| reflexivity].
    apply Qle_bool_iff in E. exfalso. eapply Qlt_not_le; eassumption.
Qed.

(** An accepted transition point lies strictly inside the beam. *)
Lemma prompt_T_loop_accepts (name : string) (L : Q)
    (lines rest : list console_line) (out : list message) (T : Q) :
  prompt_T_loop name L lines = (inr T, rest, out) → 0 < T ∧ T < L.
Proof.
  revert rest out. induction lines as [|line lines IH]; intros rest out H.
  - discriminate.
  - cbn in H. destruct line as [T' | |].
    + destruct ((0 <? T') && (T' <? L)) eqn:E.
      * injection H as -> _ _. apply andb_true_iff in E.
        destruct E as [E1 E2]. split; now apply Qltb_lt.
      * destruct (prompt_T_loop name L lines) as [[r rest'] out'].
        injection H as -> _ _. eapply IH. reflexivity.
    + destruct (prompt_T_loop name L lines) as [[r rest'] out'].
      injection H as -> _ _. eapply IH. reflexivity.
    + destruct (prompt_T_loop name L lines) as [[r rest'] out'].
      injection H as -> _ _. eapply IH. reflexivity.
Qed.

Lemma answers_cons (beam : Beam.t) (beams : list Beam.t)
    (lines : list console_line) (Ts : list Q) :
  answers (beam :: beams) lines = Some Ts →
  ∃ T rest out Ts',
    prompt_T_loop (Beam.name beam) (Beam.length beam) lines = (inr T, rest, out) ∧
    answers beams rest = Some Ts' ∧ Ts = T :: Ts'.
Proof.
  cbn [answers].
  destruct (prompt_T_loop _ _ lines) as [[[e | T] rest] out]; [discriminate |].
  destruct (answers beams rest) as [Ts' |] eqn:Hrest; [| discriminate].
  cbn. intros [= <-]. exists T, rest, out, Ts'. auto.
Qed.

Lemma answers_length (beams : list Beam.t) (lines : list console_line)
    (Ts : list Q) :
  answers beams lines = Some Ts → length Ts = length beams.
Proof.
  revert lines Ts. induction beams as [|b beams IH]; intros lines Ts H.
  - injection H as <-. reflexivity.
  - apply answers_cons in H. destruct H as (T & rest & out & Ts' & _ & H & ->).
    cbn. f_equal. eapply IH. eassumption.
Qed.

(** Every beam that was answered has a positive length. *)
Lemma answers_lengths_pos (beams : list Beam.t) (lines : list console_line)
    (Ts : list Q) :
  answers beams lines = Some Ts → Forall (fun b => 0 < Beam.length b) beams.
Proof.
  revert lines Ts. induction beams as [|b beams IH]; intros lines Ts H.
  - constructor.
  - apply answers_cons in H. destruct H as (T & rest & out & Ts' & HT & H & ->).
    apply prompt_T_loop_accepts in HT. destruct HT as [HT1 HT2].
    constructor; [| eapply IH; eassumption].
    eapply Qlt_trans; eassumption.
Qed.

(** Each answer lies strictly inside its beam. *)
Lemma answers_inside (beams : list Beam.t) (lines : list console_line)
    (Ts : list Q) :
  answers beams lines = Some Ts →
  Forall (fun bT : Beam.t * Q => 0 < snd bT ∧ snd bT < Beam.length (fst bT))
         (combine beams Ts).
Proof.
  revert lines Ts. induction beams as [|b beams IH]; intros lines Ts H.
  - constructor.
  - apply answers_cons in H. destruct H as (T & rest & out & Ts' & HT & H & ->).
    apply prompt_T_loop_accepts in HT.
    constructor; [exact HT | eapply IH; eassumption].
Qed.

(** ** The sweep *)

Lemma sweep_beam_run (materials : list Material.t) (loads : list Load.t)
    (transition_points : gmap string Q) (beam : Beam.t) (s : world)
    (content : list csv_row) (T : Q) (rest : list console_line)
    (out : list message) :
  Forall (fun m => 0 < Material.E m) materials →
  0 < Beam.moment_of_inertia beam →
  file s = Some content →
  prompt_T_loop (Beam.name beam) (Beam.length beam) (stdin s) = (inr T, rest, out) →
  sweep_beam materials loads transition_points beam s =
  (ret (<[Beam.name beam := T]> transition_points),
   World rest ((stdout s ++ [ConfiguringBeam (Beam.name beam)]) ++ out)
         (Some (content ++ beam_records materials loads beam T))).
Proof.
  intros HE HI Hs HT.
  assert (appends
            (for_each loads (fun load =>
               for_each (product materials 2) (fun pair =>
                 match pair with
                 | [material1; material2] =>
                     for_each (x_values (Beam.length beam))
                              (evaluate beam load material1 material2 T)
                 | _ => lift (raise ValueError)
                 end)))
            (beam_records materials loads beam T)) as Hloops.
  { apply appends_for_each. intros load _. now apply pairs_appends. }
  unfold sweep_beam, io_bind, print, prompt_T. cbn [stdin stdout file].
  rewrite HT. unfold ret at 1.
  rewrite (Hloops (World rest ((stdout s ++ [ConfiguringBeam (Beam.name beam)])
                               ++ out) (file s)) content Hs).
  reflexivity.
Qed.

Lemma beams_loop_run (materials : list Material.t) (loads : list Load.t) :
  Forall (fun m => 0 < Material.E m) materials →
  ∀ (beams : list Beam.t) (Ts : list Q) (transition_points : gmap string Q)
    (s : world) (content : list csv_row),
    Forall (fun b => 0 < Beam.moment_of_inertia b) beams →
    file s = Some content →
    answers beams (stdin s) = Some Ts →
    ∃ rest out,
      for_each_with beams transition_points (sweep_beam materials loads) s =
      (ret (recorded transition_points (combine beams Ts)),
       World rest out
             (Some (content ++
                    beam_major_records materials loads (combine beams Ts)))).
Proof.
  intros HE. induction beams as [|beam beams IH];
    intros Ts tp s content HI Hs Hans.
  - injection Hans as <-. exists (stdin s), (stdout s).
    cbn. unfold io_ret. rewrite app_nil_r, <- Hs. destruct s; reflexivity.
  - apply answers_cons in Hans.
    destruct Hans as (T & rest & out & Ts' & HT & Hans & ->).
    inversion HI as [|? ? HIb HIbs]; subst.
    cbn [for_each_with]. unfold io_bind.
    rewrite (sweep_beam_run materials loads tp beam s content T rest out
               HE HIb Hs HT).
    unfold ret at 1.
    edestruct (IH Ts' (<[Beam.name beam := T]> tp)
                 (World rest ((stdout s ++ [ConfiguringBeam (Beam.name beam)])
                              ++ out)
                        (Some (content ++ beam_records materials loads beam T))))
      as (rest' & out' & Hrun); [exact HIbs | reflexivity | exact Hans |].
    rewrite Hrun. exists rest', out'.
    cbn [combine beam_major_records flat_map fst snd].
    now rewrite app_assoc.
Qed.

Lemma filter_all {A} (p : A → bool) (l : list A) :
  Forall (fun a => p a = true) l → List.filter p l = l.
Proof.
  induction 1 as [|a l Ha _ IH]; cbn; [reflexivity |].
  now rewrite Ha, IH.
Qed.

(** Membership in the enumeration of the specification. *)
Lemma beam_major_records_In (materials : list Material.t)
    (loads : list Load.t) (beams_T : list (Beam.t * Q)) (row : csv_row) :
  In row (beam_major_records materials loads beams_T) ↔
  ∃ beam T load material1 material2 x,
    In (beam, T) beams_T ∧ In load loads ∧
    In material1 materials ∧ In material2 materials ∧
    In x (x_values (Beam.length beam)) ∧
    row = record beam load material1 material2 T x.
Proof.
  unfold beam_major_records, beam_records. split.
  - intros H.
    apply in_flat_map in H. destruct H as ([beam T] & HbT & H).
    apply in_flat_map in H. destruct H as (load & Hl & H).
    apply in_flat_map in H. destruct H as (m1 & Hm1 & H).
    apply in_flat_map in H. destruct H as (m2 & Hm2 & H).
    apply in_map_iff in H. destruct H as (x & <- & Hx).
    exists beam, T, load, m1, m2, x. auto 10.
  - intros (beam & T & load & m1 & m2 & x & HbT & Hl & Hm1 & Hm2 & Hx & ->).
    apply in_flat_map. exists (beam, T). split; [assumption |].
    apply in_flat_map. exists load. split; [assumption |].
    apply in_flat_map. exists m1. split; [assumption |].
    apply in_flat_map. exists m2. split; [assumption |].
    apply in_map. assumption.
Qed.

Lemma beam_major_records_values (materials : list Material.t)
    (loads : list Load.t) (beams_T : list (Beam.t * Q)) :
  List.filter is_values (beam_major_records materials loads beams_T) =
  beam_major_records materials loads beams_T.
Proof.
  apply filter_all. apply List.Forall_forall. intros row H.
  apply beam_major_records_In in H.
  destruct H as (beam & T & load & m1 & m2 & x & _ & _ & _ & _ & _ & ->).
  reflexivity.
Qed.

Lemma beam_major_records_empty (materials : list Material.t)
    (loads : list Load.t) (beams_T : list (Beam.t * Q)) :
  beams_T = [] ∨ loads = [] ∨ materials = [] →
  beam_major_records materials loads beams_T = [].
Proof.
  unfold beam_major_records, beam_records.
  intros [-> | [-> | ->]]; [reflexivity | |].
  - apply flat_map_empty. reflexivity.
  - apply flat_map_empty. intros bT. apply flat_map_empty. reflexivity.
Qed.

(** A run on a valid library whose prompts are all answered returns, and
    leaves in the file the header followed by the records in the order of
    the specification. *)
Lemma compute_deflections_run (library : BeamLibrary.t)
    (output_filename : string) (lines : list console_line) (Ts : list Q) :
  valid_library library →
  answers (BeamLibrary.get_beams library) lines = Some Ts →
  let records :=
    beam_major_records (BeamLibrary.get_materials library)
      (BeamLibrary.get_loads library)
      (combine (BeamLibrary.get_beams library) Ts) in
  ∃ transition_points s',
    compute_deflections library output_filename (initial_world lines) =
      (ret transition_points, s') ∧
    evaluation_records s' = records ∧
    (BeamLibrary.get_beams library ≠ [] →
     BeamLibrary.get_loads library ≠ [] →
     BeamLibrary.get_materials library ≠ [] →
     file s' = Some (header :: records) ∧
     transition_points =
       recorded ∅ (combine (BeamLibrary.get_beams library) Ts)).
Proof.
  intros [HE HI] Hans records. subst records.
  unfold compute_deflections.
  destruct (BeamLibrary.get_beams library) as [|beam beams] eqn:Hbeams.
  { eexists _, _. split; [reflexivity |]. split; [reflexivity | congruence]. }
  destruct (BeamLibrary.get_loads library) as [|load loads] eqn:Hloads.
  { eexists _, _. split; [reflexivity |]. split; [| congruence].
    symmetry. apply beam_major_records_empty. auto. }
  destruct (BeamLibrary.get_materials library) as [|material materials]
    eqn:Hmaterials.
  { eexists _, _. split; [reflexivity |]. split; [| congruence].
    symmetry. apply beam_major_records_empty. auto. }
  destruct (beams_loop_run (material :: materials) (load :: loads) HE
              (beam :: beams) Ts ∅ (World lines [] (Some [header])) [header]
              HI eq_refl Hans) as (rest & out & Hrun).
  eexists. eexists. split; [| split].
  - unfold io_bind, open_w, writerow, initial_world.
    cbn [stdin stdout file app]. unfold ret at 1 2.
    rewrite Hrun. reflexivity.
  - unfold evaluation_records. cbn [file app filter is_values header].
    apply beam_major_records_values.
  - intros _ _ _. split; reflexivity.
Qed.

(** ** Rounding *)

Lemma rint_comp (q q' : Q) : q == q' → rint q = rint q'.
Proof.
  intros H. unfold rint.
  rewrite (Qfloor_comp q q' H).
  assert (q - inject_Z (Qfloor q') == q' - inject_Z (Qfloor q')) as ->
    by (rewrite H; reflexivity).
  reflexivity.
Qed.

Lemma rint_Z (n : Z) : rint (inject_Z n) = n.
Proof.
  unfold rint. rewrite Qfloor_Z.
  assert (inject_Z n - inject_Z n == 0) as -> by ring.
  reflexivity.
Qed.



(** Rounding to 4 places leaves a grid sample as it is. *)
Lemma round_sample (i : nat) :
  round (0 + inject_Z (Z.of_nat i) * step) 4 ==
  0 + inject_Z (Z.of_nat i) * step.
Proof.
  unfold round.
  rewrite (rint_comp _ (inject_Z (25 * Z.of_nat i))).
  - rewrite rint_Z, inject_Z_mult. unfold step. field.
  - rewrite inject_Z_mult. unfold step. field.
Qed.

Lemma StronglySorted_map_seq {A} (R : A → A → Prop) (f : nat → A)
    (start len : nat) :
  (∀ i j, (i < j)%nat → R (f i) (f j)) →
  StronglySorted R (map f (seq start len)).
Proof.
  intros HR. revert start.
  induction len as [|len IH]; intros start; cbn; constructor.
  - apply IH.
  - apply List.Forall_forall. intros a Ha.
    apply in_map_iff in Ha. destruct Ha as (j & <- & Hj).
    apply in_seq in Hj. apply HR. lia.
Qed.

(** The x column of one sweep is strictly ascending. *)
Lemma x_column_ascending (L : Q) :
  StronglySorted Qlt (map (fun x => round x 4) (x_values L)).
Proof.
  unfold x_values, arange. rewrite map_map.
  apply StronglySorted_map_seq. intros i j Hij.
  rewrite !round_sample. now apply sample_lt.
Qed.

(** ** Theorems on the sweep *)

Lemma ceiling_pos (L : Q) : 0 < L → (0 < Qceiling (L / step + 1))%Z.
Proof.
  intros HL. rewrite Zlt_Qlt.
  eapply Qlt_le_trans; [| apply Qle_ceiling].
  assert (0 < L / step) as Hq.
  { apply Qlt_shift_div_l; [apply step_pos |]. now rewrite Qmult_0_l. }
  change (inject_Z 0) with 0. set (q := L / step) in *. lra.
Qed.





(** C5. Record order: the records a run leaves are the enumeration
    beam-major, then load, then material1, then material2 over the full
    Cartesian square of the materials, then the samples, each beam with the
    transition point entered for it; and within one sweep the x column is
    strictly ascending. *)
Theorem C5_record_order (library : BeamLibrary.t)
    (output_filename : string) (lines : list console_line) (Ts : list Q) :
  valid_library library →
  answers (BeamLibrary.get_beams library) lines = Some Ts →
  ∃ transition_points s',
    compute_deflections library output_filename (initial_world lines) =
      (ret transition_points, s') ∧
    evaluation_records s' =
      beam_major_records (BeamLibrary.get_materials library)
        (BeamLibrary.get_loads library)
        (combine (BeamLibrary.get_beams library) Ts) ∧
    Forall (fun b => StronglySorted Qlt
                       (map (fun x => round x 4) (x_values (Beam.length b))))
           (BeamLibrary.get_beams library).
Proof.
  intros Hvalid Hans.
  destruct (compute_deflections_run library output_filename lines Ts
              Hvalid Hans) as (tp & s' & Hrun & Hrec & _).
  exists tp, s'. split; [exact Hrun |]. split; [exact Hrec |].
  apply List.Forall_forall. intros b _. apply x_column_ascending.
Qed.

Lemma C5_witness :
  ∃ transition_points s',
    compute_deflections example_library "deflection_results.csv"
                        (initial_world example_console) =
      (ret transition_points, s') ∧
    evaluation_records s' =
      beam_major_records (BeamLibrary.get_materials example_library)
        (BeamLibrary.get_loads example_library)
        (combine (BeamLibrary.get_beams example_library) [1 # 200; 1 # 400]) ∧
    Forall (fun b => StronglySorted Qlt
                       (map (fun x => round x 4) (x_values (Beam.length b))))
           (BeamLibrary.get_beams example_library).
Proof.
  apply (C5_record_order example_library "deflection_results.csv"
           example_console [1 # 200; 1 # 400]).
  - split; repeat constructor.
  - reflexivity.
Defined.

(** C6. Empty collections: when the beams, the loads or the materials are
    empty the call returns the empty mapping without raising, prints one
    message naming a collection that is empty, reads nothing and does not
    write the output file, so there is no evaluation record. *)
Theorem C6_empty_collection (library : BeamLibrary.t)
    (output_filename : string) (lines : list console_line) :
  BeamLibrary.get_beams library = [] ∨
  BeamLibrary.get_loads library = [] ∨
  BeamLibrary.get_materials library = [] →
  ∃ msg s',
    compute_deflections library output_filename (initial_world lines) =
      (ret ∅, s') ∧
    s' = World lines [msg] None ∧
    (msg = NoBeams ∧ BeamLibrary.get_beams library = [] ∨
     msg = NoLoads ∧ BeamLibrary.get_loads library = [] ∨
     msg = NoMaterials ∧ BeamLibrary.get_materials library = []) ∧
    evaluation_records s' = [].
Proof.
  intros Hempty. unfold compute_deflections.
  destruct (BeamLibrary.get_beams library) as [|beam beams].
  { exists NoBeams. eexists. split; [reflexivity |].
    split; [reflexivity |]. split; [auto 6 | reflexivity]. }
  destruct (BeamLibrary.get_loads library) as [|load loads].
  { exists NoLoads. eexists. split; [reflexivity |].
    split; [reflexivity |]. split; [auto 6 | reflexivity]. }
  destruct (BeamLibrary.get_materials library) as [|material materials].
  { exists NoMaterials. eexists. split; [reflexivity |].
    split; [reflexivity |]. split; [auto 6 | reflexivity]. }
  destruct Hempty as [H | [H | H]]; discriminate.
Qed.

Lemma C6_witness :
  let library := BeamLibrary.Build [] [Beam.Build "short" 4 1] [] in
  ∃ msg s',
    compute_deflections library "deflection_results.csv"
                        (initial_world example_console) = (ret ∅, s') ∧
    s' = World example_console [msg] None ∧
    (msg = NoBeams ∧ BeamLibrary.get_beams library = [] ∨
     msg = NoLoads ∧ BeamLibrary.get_loads library = [] ∨
     msg = NoMaterials ∧ BeamLibrary.get_materials library = []) ∧
    evaluation_records s' = [].
Proof.
  apply (C6_empty_collection
           (BeamLibrary.Build [] [Beam.Build "short" 4 1] [])
           "deflection_results.csv" example_console).
  right. left. reflexivity.
Defined.

(** On that library the message is the one about the loads, although the
    materials are empty too: the collections are tested in the order beams,
    loads, materials. *)
Example empty_loads_reported_first :
  compute_deflections (BeamLibrary.Build [] [Beam.Build "short" 4 1] [])
                      "deflection_results.csv" (initial_world example_console) =
  (ret ∅, World example_console [NoLoads] None).
Proof. reflexivity. Qed.



(** The dictionary returned by the run on the example library. *)
Example returned_transition_points :
  fst (compute_deflections example_library "deflection_results.csv"
         (initial_world example_console)) =
  ret (<["stub" := 1 # 400]> (<["short" := 1 # 200]> ∅)).
Proof. vm_compute. reflexivity. Qed.

(** The first two records of the run on the example library. *)
Example first_records :
  firstn 2 (evaluation_records
              (snd (compute_deflections example_library
                      "deflection_results.csv"
                      (initial_world example_console)))) =
  [Values "short" "light" "steel" "steel" (0 # 10000)
          (val (y1 (0 + inject_Z 0 * step) 200000000000 (8333 # 1000000000)
                   (1 # 100) 1000))
          (round (degrees (val (theta1 (0 + inject_Z 0 * step) 200000000000
                                       (8333 # 1000000000) (1 # 100) 1000))) 6);
   Values "short" "light" "steel" "steel" (25 # 10000)
          (val (y1 (0 + inject_Z 1 * step) 200000000000 (8333 # 1000000000)
                   (1 # 100) 1000))
          (round (degrees (val (theta1 (0 + inject_Z 1 * step) 200000000000
                                       (8333 # 1000000000) (1 # 100) 1000))) 6)].
Proof. vm_compute. reflexivity. Qed.

(** ** A remark on binary64

    The theorems above are about exact arithmetic.  In binary64 the literal
    [0.0025] is 0x1.47ae147ae147bp-9, and the quotient
    [(4.0 + 0.0025) / 0.0025] whose ceiling is the length of
    [np.arange(0, L + step, step)] for a 4 m beam lies strictly between 1601
    and 1602: NumPy then produces 1602 samples, one more than
    [ceil(L / step + 1)], the last of them beyond the end of the beam. *)
Example binary64_quotient_4m :
  let step := 0x1.47ae147ae147bp-9%float in
  PrimFloat.ltb 1601 (PrimFloat.div (PrimFloat.add 4 step) step) = true ∧
  PrimFloat.ltb (PrimFloat.div (PrimFloat.add 4 step) step) 1602 = true.
Proof. split; reflexivity. Qed.

(** * Further properties of the deflection model *)






Lemma scaled_zero (k a b : Q) : a == 0 ∨ b == 0 → k * a * b == 0.
Proof. intros [H | H]; rewrite H; ring. Qed.

Lemma one_segment_raises (x E1 I L w : Q) :
  E1 == 0 ∨ I == 0 →
  y1 x E1 I L w = raise ZeroDivisionError ∧
  theta1 x E1 I L w = raise ZeroDivisionError.
Proof.
  intros H. unfold y1, theta1.
  rewrite (pydiv_zero (- w) (24 * E1 * I)) by (apply scaled_zero; exact H).
  rewrite (pydiv_zero w (6 * E1 * I)) by (apply scaled_zero; exact H).
  split; reflexivity.
Qed.











(** ** Signs *)








(** * Further properties of the sweep *)

Lemma prompt_T_loop_reject (name : string) (L : Q) (line : console_line)
    (lines : list console_line) :
  accepted L line = false →
  prompt_T_loop name L (line :: lines) =
  let '(r, rest, out) := prompt_T_loop name L lines in
  (r, rest, PromptT name L :: reply L line :: out).
Proof.
  intros H. cbn [prompt_T_loop]. destruct line as [T | |]; cbn in H |- *.
  - rewrite H. reflexivity.
  - reflexivity.
  - reflexivity.
Qed.

Lemma accepted_float (L T : Q) : 0 < T → T < L → accepted L (FloatLine T) = true.
Proof.
  intros H1 H2. cbn. apply andb_true_iff. split; now apply Qltb_lt.
Qed.

(** X7. The prompt loop takes the first accepted line: the lines before it
    are consumed, each answered by its own message after the prompt, and the
    lines after it stay on the console. *)
Theorem prompt_takes_first_accepted (name : string) (L T : Q)
    (skipped rest : list console_line) :
  Forall (fun line => accepted L line = false) skipped →
  0 < T → T < L →
  prompt_T_loop name L (skipped ++ FloatLine T :: rest) =
  (ret T, rest, retries name L skipped ++ [PromptT name L]).
Proof.
  intros Hskip HT1 HT2. induction Hskip as [|line skipped Hline _ IH].
  - cbn. pose proof (accepted_float L T HT1 HT2) as H. cbn in H.
    rewrite H. reflexivity.
  - cbn [app]. rewrite (prompt_T_loop_reject _ _ _ _ Hline), IH. reflexivity.
Qed.

Lemma prompt_takes_first_accepted_witness :
  prompt_T_loop "short" (1 # 100)
    ([GarbageLine; FloatLine 2; NonFiniteLine] ++ FloatLine (1 # 200) :: [GarbageLine]) =
  (ret (1 # 200), [GarbageLine],
   retries "short" (1 # 100) [GarbageLine; FloatLine 2; NonFiniteLine]
   ++ [PromptT "short" (1 # 100)]).
Proof.
  apply (prompt_takes_first_accepted "short" (1 # 100) (1 # 200)
           [GarbageLine; FloatLine 2; NonFiniteLine] [GarbageLine]).
  - repeat constructor.
  - reflexivity.
  - reflexivity.
Defined.

Lemma prompt_T_loop_exhausted (name : string) (L : Q)
    (lines : list console_line) :
  Forall (fun line => accepted L line = false) lines →
  prompt_T_loop name L lines =
  (raise EOFError, [], retries name L lines ++ [PromptT name L]).
Proof.
  induction 1 as [|line lines Hline _ IH].
  - reflexivity.
  - rewrite (prompt_T_loop_reject _ _ _ _ Hline), IH. reflexivity.
Qed.

(** The loop fails in one way only. *)
Lemma prompt_T_loop_raises (name : string) (L : Q)
    (lines rest : list console_line) (out : list message) (e : exn) :
  prompt_T_loop name L lines = (inl e, rest, out) →
  e = EOFError ∧ rest = [] ∧
  Forall (fun line => accepted L line = false) lines.
Proof.
  revert rest out. induction lines as [|line lines IH]; intros rest out H.
  - cbn in H. injection H as <- <- _. auto.
  - destruct (accepted L line) eqn:Hacc.
    + destruct line as [T | |]; try discriminate Hacc.
      cbn in H, Hacc. rewrite Hacc in H. discriminate H.
    + rewrite (prompt_T_loop_reject _ _ _ _ Hacc) in H.
      destruct (prompt_T_loop name L lines) as [[r rest'] out'] eqn:Hloop.
      injection H as -> -> _.
      destruct (IH _ _ eq_refl) as (He & Hrest & Hall). auto.
Qed.

(** X8. When no line on the console is accepted the prompt loop consumes
    all of them and raises [EOFError]; it raises nothing else, and it raises
    only in that case. *)
Theorem prompt_raises_iff_no_accepted (name : string) (L : Q)
    (lines : list console_line) :
  (Forall (fun line => accepted L line = false) lines →
   prompt_T_loop name L lines =
   (raise EOFError, [], retries name L lines ++ [PromptT name L])) ∧
  (∀ e rest out,
     prompt_T_loop name L lines = (inl e, rest, out) →
     e = EOFError ∧ rest = [] ∧
     Forall (fun line => accepted L line = false) lines).
Proof.
  split.
  - apply prompt_T_loop_exhausted.
  - intros e rest out. apply prompt_T_loop_raises.
Qed.

Lemma prompt_raises_iff_no_accepted_witness :
  prompt_T_loop "short" (1 # 100) [FloatLine 2; GarbageLine] =
  (raise EOFError, [],
   retries "short" (1 # 100) [FloatLine 2; GarbageLine]
   ++ [PromptT "short" (1 # 100)]).
Proof.
  apply (proj1 (prompt_raises_iff_no_accepted "short" (1 # 100)
                  [FloatLine 2; GarbageLine])).
  repeat constructor.
Defined.

Lemma sweep_beam_prompt_fails (materials : list Material.t)
    (loads : list Load.t) (transition_points : gmap string Q) (beam : Beam.t)
    (s : world) (e : exn) (rest : list console_line) (out : list message) :
  prompt_T_loop (Beam.name beam) (Beam.length beam) (stdin s) = (inl e, rest, out) →
  sweep_beam materials loads transition_points beam s =
  (inl e, World rest ((stdout s ++ [ConfiguringBeam (Beam.name beam)]) ++ out)
                (file s)).
Proof.
  intros HT. unfold sweep_beam, io_bind, print, prompt_T.
  cbn [stdin stdout file]. rewrite HT. reflexivity.
Qed.

Lemma beams_loop_eof (materials : list Material.t) (loads : list Load.t) :
  Forall (fun m => 0 < Material.E m) materials →
  ∀ (beams : list Beam.t) (transition_points : gmap string Q) (s : world)
    (content : list csv_row),
    Forall (fun b => 0 < Beam.moment_of_inertia b) beams →
    file s = Some content →
    answers beams (stdin s) = None →
    ∃ (k : nat) (Ts : list Q) (out : list message),
      (k < length beams)%nat ∧
      answers (firstn k beams) (stdin s) = Some Ts ∧
      for_each_with beams transition_points (sweep_beam materials loads) s =
      (raise EOFError,
       World [] out
             (Some (content ++
                    beam_major_records materials loads
                      (combine (firstn k beams) Ts)))).
Proof.
  intros HE. induction beams as [|beam beams IH];
    intros tp s content HI Hs Hans.
  - discriminate.
  - inversion HI as [|? ? HIb HIbs]; subst.
    cbn [answers] in Hans.
    destruct (prompt_T_loop (Beam.name beam) (Beam.length beam) (stdin s))
      as [[[e | T] rest] out] eqn:HT.
    + destruct (prompt_T_loop_raises _ _ _ _ _ _ HT) as (-> & -> & _).
      exists 0%nat, [], ((stdout s ++ [ConfiguringBeam (Beam.name beam)]) ++ out).
      split; [cbn; lia |]. split; [reflexivity |].
      cbn [for_each_with]. unfold io_bind.
      rewrite (sweep_beam_prompt_fails _ _ _ _ _ _ _ _ HT).
      cbn [firstn combine beam_major_records flat_map].
      rewrite app_nil_r, Hs. reflexivity.
    + destruct (answers beams rest) as [Ts' |] eqn:Hrest; [discriminate |].
      edestruct (IH (<[Beam.name beam := T]> tp)
                   (World rest ((stdout s ++ [ConfiguringBeam (Beam.name beam)])
                                ++ out)
                          (Some (content ++ beam_records materials loads beam T))))
        as (k & Ts & out' & Hk & Hpre & Hrun);
        [exact HIbs | reflexivity | exact Hrest |].
      exists (S k), (T :: Ts), out'.
      split; [cbn; lia |]. split.
      * cbn [firstn answers]. rewrite HT. cbn [stdin] in Hpre.
        rewrite Hpre. reflexivity.
      * cbn [for_each_with]. unfold io_bind.
        rewrite (sweep_beam_run materials loads tp beam s content T rest out
                   HE HIb Hs HT).
        unfold ret at 1. rewrite Hrun.
        cbn [firstn combine beam_major_records flat_map fst snd].
        now rewrite app_assoc.
Qed.

(** X9. When the console runs out before every beam has an accepted
    transition point, the call raises [EOFError] instead of returning; the
    console is then empty, and the file holds the header and the complete
    records of the beams answered before, in order. *)
Theorem console_exhausted (library : BeamLibrary.t)
    (output_filename : string) (lines : list console_line) :
  valid_library library →
  BeamLibrary.get_beams library ≠ [] →
  BeamLibrary.get_loads library ≠ [] →
  BeamLibrary.get_materials library ≠ [] →
  answers (BeamLibrary.get_beams library) lines = None →
  ∃ (s' : world) (k : nat) (Ts : list Q),
    compute_deflections library output_filename (initial_world lines) =
      (raise EOFError, s') ∧
    stdin s' = [] ∧
    (k < length (BeamLibrary.get_beams library))%nat ∧
    answers (firstn k (BeamLibrary.get_beams library)) lines = Some Ts ∧
    file s' =
      Some (header ::
            beam_major_records (BeamLibrary.get_materials library)
              (BeamLibrary.get_loads library)
              (combine (firstn k (BeamLibrary.get_beams library)) Ts)).
Proof.
  intros [HE HI] Hb Hl Hm Hans. unfold compute_deflections.
  destruct (BeamLibrary.get_beams library) as [|beam beams]; [congruence |].
  destruct (BeamLibrary.get_loads library) as [|load loads]; [congruence |].
  destruct (BeamLibrary.get_materials library) as [|material materials];
    [congruence |].
  destruct (beams_loop_eof (material :: materials) (load :: loads) HE
              (beam :: beams) ∅ (World lines [] (Some [header])) [header]
              HI eq_refl Hans) as (k & Ts & out & Hk & Hpre & Hrun).
  eexists. exists k, Ts. split; [| split; [| split; [exact Hk | split]]].
  - unfold io_bind, open_w, writerow, initial_world.
    cbn [stdin stdout file app]. unfold ret at 1 2.
    rewrite Hrun. reflexivity.
  - reflexivity.
  - exact Hpre.
  - reflexivity.
Qed.

Lemma console_exhausted_witness :
  ∃ (s' : world) (k : nat) (Ts : list Q),
    compute_deflections example_library "deflection_results.csv"
                        (initial_world [FloatLine (1 # 200); GarbageLine]) =
      (raise EOFError, s') ∧
    stdin s' = [] ∧
    (k < length (BeamLibrary.get_beams example_library))%nat ∧
    answers (firstn k (BeamLibrary.get_beams example_library))
            [FloatLine (1 # 200); GarbageLine] = Some Ts ∧
    file s' =
      Some (header ::
            beam_major_records (BeamLibrary.get_materials example_library)
              (BeamLibrary.get_loads example_library)
              (combine (firstn k (BeamLibrary.get_beams example_library)) Ts)).
Proof.
  apply (console_exhausted example_library "deflection_results.csv"
           [FloatLine (1 # 200); GarbageLine]).
  - split; repeat constructor.
  - discriminate.
  - discriminate.
  - discriminate.
  - reflexivity.
Defined.

Lemma for_each_head_raises {A} (a : A) (l : list A) (body : A → io unit)
    (s s' : world) (e : exn) :
  body a s = (inl e, s') → for_each (a :: l) body s = (inl e, s').
Proof. intros H. cbn [for_each]. unfold io_bind. rewrite H. reflexivity. Qed.

Lemma x_values_head (L : Q) :
  0 < L → ∃ xs, x_values L = (0 + inject_Z 0 * step) :: xs.
Proof.
  intros HL. pose proof (ceiling_pos L HL) as Hc.
  unfold x_values, arange. rewrite sample_count.
  destruct (Z.to_nat (Qceiling (L / step + 1))) as [|n] eqn:Hn; [lia |].
  cbn [seq map]. eexists. reflexivity.
Qed.

Lemma product_head {A} (a : A) (l : list A) :
  ∃ pairs, product (a :: l) 2 = [a; a] :: pairs.
Proof. rewrite product_2. cbn [flat_map map app]. eexists. reflexivity. Qed.

Lemma evaluate_raises (beam : Beam.t) (load : Load.t)
    (material1 material2 : Material.t) (T x : Q) (s : world) :
  Material.E material1 == 0 ∨ Beam.moment_of_inertia beam == 0 →
  (x <? T) = true →
  evaluate beam load material1 material2 T x s = (raise ZeroDivisionError, s).
Proof.
  intros Hzero Hx. unfold evaluate, io_bind, lift. rewrite Hx.
  rewrite (proj1 (one_segment_raises x _ _ (Beam.length beam) (Load.w load)
                    Hzero)).
  reflexivity.
Qed.

(** X10. Nothing validates the library: when the first material has a zero
    modulus or the first beam a zero second moment of area, the call raises
    [ZeroDivisionError] at the very first sample, after the transition point
    of that beam was entered, and leaves a file with the header only. *)
Theorem zero_stiffness_aborts (library : BeamLibrary.t)
    (output_filename : string) (lines rest : list console_line)
    (out : list message) (T : Q)
    (beam : Beam.t) (beams : list Beam.t) (load : Load.t)
    (loads : list Load.t) (material : Material.t)
    (materials : list Material.t) :
  BeamLibrary.get_beams library = beam :: beams →
  BeamLibrary.get_loads library = load :: loads →
  BeamLibrary.get_materials library = material :: materials →
  Material.E material == 0 ∨ Beam.moment_of_inertia beam == 0 →
  prompt_T_loop (Beam.name beam) (Beam.length beam) lines = (inr T, rest, out) →
  compute_deflections library output_filename (initial_world lines) =
  (raise ZeroDivisionError,
   World rest ([ConfiguringBeam (Beam.name beam)] ++ out) (Some [header])).
Proof.
  intros Hb Hl Hm Hzero HT.
  destruct (prompt_T_loop_accepts _ _ _ _ _ _ HT) as [HT0 HTL].
  destruct (x_values_head (Beam.length beam)) as [xs Hxs];
    [eapply Qlt_trans; eassumption |].
  destruct (product_head material materials) as [pairs Hpairs].
  unfold compute_deflections. rewrite Hb, Hl, Hm.
  unfold io_bind at 1 2 3, open_w, writerow, initial_world.
  cbn [stdin stdout file app]. unfold ret at 1 2.
  cbn [for_each_with]. unfold io_bind at 1.
  unfold sweep_beam. unfold io_bind at 1 2 3, print, prompt_T.
  cbn [stdin stdout file app]. rewrite HT. unfold ret at 1.
  rewrite (for_each_head_raises load loads _ _
             (World rest ([ConfiguringBeam (Beam.name beam)] ++ out)
                    (Some [header]))
             ZeroDivisionError); [reflexivity |].
  rewrite Hpairs. apply for_each_head_raises.
  rewrite Hxs. apply for_each_head_raises.
  apply evaluate_raises; [exact Hzero |].
  apply Qltb_lt. assert (0 + inject_Z 0 * step == 0) as -> by ring. exact HT0.
Qed.

Lemma zero_stiffness_aborts_witness :
  compute_deflections
    (BeamLibrary.Build [Material.Build "steel" 200]
       [Beam.Build "short" (1 # 100) 0] [Load.Build "light" 1000])
    "deflection_results.csv" (initial_world [FloatLine (1 # 200)]) =
  (raise ZeroDivisionError,
   World [] ([ConfiguringBeam "short"] ++ [PromptT "short" (1 # 100)])
         (Some [header])).
Proof.
  apply (zero_stiffness_aborts
           (BeamLibrary.Build [Material.Build "steel" 200]
              [Beam.Build "short" (1 # 100) 0] [Load.Build "light" 1000])
           "deflection_results.csv" [FloatLine (1 # 200)] []
           [PromptT "short" (1 # 100)] (1 # 200)
           (Beam.Build "short" (1 # 100) 0) [] (Load.Build "light" 1000) []
           (Material.Build "steel" 200) []);
    try reflexivity.
  right. reflexivity.
Defined.

(** ** The returned dictionary *)

Lemma recorded_cons (tp : gmap string Q) (bT : Beam.t * Q)
    (l : list (Beam.t * Q)) :
  recorded tp (bT :: l) = recorded (<[Beam.name (fst bT) := snd bT]> tp) l.
Proof. reflexivity. Qed.

Lemma recorded_dom (tp : gmap string Q) (l : list (Beam.t * Q)) :
  dom (recorded tp l) =
  dom tp ∪ list_to_set (map (fun bT => Beam.name (fst bT)) l).
Proof.
  revert tp. induction l as [|bT l IH]; intros tp.
  - cbn. now rewrite union_empty_r_L.
  - rewrite recorded_cons, IH, dom_insert_L. cbn [map list_to_set fst].
    rewrite (comm_L (∪) {[Beam.name (fst bT)]} (dom tp)).
    now rewrite (assoc_L (∪)).
Qed.

Lemma recorded_lookup_later (tp : gmap string Q) (l : list (Beam.t * Q))
    (n : string) :
  Forall (fun bT => Beam.name (fst bT) ≠ n) l →
  recorded tp l !! n = tp !! n.
Proof.
  intros H. revert tp. induction H as [|bT l Hn _ IH]; intros tp.
  - reflexivity.
  - rewrite recorded_cons, IH. apply lookup_insert_ne. exact Hn.
Qed.

Lemma recorded_lookup_origin (tp : gmap string Q) (l : list (Beam.t * Q))
    (n : string) (T : Q) :
  recorded tp l !! n = Some T →
  tp !! n = Some T ∨ ∃ b, In (b, T) l ∧ Beam.name b = n.
Proof.
  revert tp. induction l as [|[b T'] l IH]; intros tp H.
  - left. exact H.
  - rewrite recorded_cons in H. apply IH in H. cbn [fst snd] in H.
    destruct H as [H | (b' & Hin & Hn)].
    + destruct (decide (Beam.name b = n)) as [Heq | Hne].
      * subst n. rewrite lookup_insert_eq in H. injection H as ->.
        right. exists b. split; [now left | reflexivity].
      * rewrite lookup_insert_ne in H by exact Hne. left. exact H.
    + right. exists b'. split; [now right | exact Hn].
Qed.

Lemma combine_names (beams : list Beam.t) (Ts : list Q) :
  length Ts = length beams →
  map (fun bT : Beam.t * Q => Beam.name (fst bT)) (combine beams Ts) =
  map Beam.name beams.
Proof.
  revert Ts. induction beams as [|b beams IH]; intros [|T Ts] H;
    try discriminate; [reflexivity |].
  cbn. f_equal. apply IH. now injection H.
Qed.

(** X11. The dictionary a complete run returns has exactly the beam names
    as keys; every value is a transition point that was accepted for a beam
    of that name, so it lies strictly inside that beam; and a beam whose
    name is not used again later in the list keeps the value entered for
    it. *)
Theorem returned_dictionary (library : BeamLibrary.t)
    (output_filename : string) (lines : list console_line) (Ts : list Q) :
  valid_library library →
  BeamLibrary.get_beams library ≠ [] →
  BeamLibrary.get_loads library ≠ [] →
  BeamLibrary.get_materials library ≠ [] →
  answers (BeamLibrary.get_beams library) lines = Some Ts →
  ∃ (transition_points : gmap string Q) (s' : world),
    compute_deflections library output_filename (initial_world lines) =
      (ret transition_points, s') ∧
    dom transition_points =
      list_to_set (map Beam.name (BeamLibrary.get_beams library)) ∧
    (∀ n T, transition_points !! n = Some T →
            ∃ b, In b (BeamLibrary.get_beams library) ∧ Beam.name b = n ∧
                 0 < T ∧ T < Beam.length b) ∧
    (∀ before b T after,
       combine (BeamLibrary.get_beams library) Ts = before ++ (b, T) :: after →
       Forall (fun bT : Beam.t * Q => Beam.name (fst bT) ≠ Beam.name b) after →
       transition_points !! Beam.name b = Some T).
Proof.
  intros Hvalid Hb Hl Hm Hans.
  destruct (compute_deflections_run library output_filename lines Ts
              Hvalid Hans) as (tp & s' & Hrun & _ & Hmore).
  destruct (Hmore Hb Hl Hm) as [_ ->].
  eexists _, s'. split; [exact Hrun |]. split; [| split].
  - rewrite recorded_dom, dom_empty_L, combine_names
      by (eapply answers_length; eassumption).
    apply union_empty_l_L.
  - intros n T Hlook. apply recorded_lookup_origin in Hlook.
    destruct Hlook as [Hlook | (b & Hin & Hn)].
    + rewrite lookup_empty in Hlook. discriminate.
    + exists b. split; [eapply in_combine_l; eassumption |].
      split; [exact Hn |].
      exact (proj1 (List.Forall_forall _ _) (answers_inside _ _ _ Hans) _ Hin).
  - intros before b T after Hsplit Hafter.
    rewrite Hsplit. unfold recorded. rewrite fold_left_app.
    fold (recorded ∅ before).
    fold (recorded (recorded ∅ before) ((b, T) :: after)).
    rewrite recorded_cons, (recorded_lookup_later _ _ _ Hafter).
    apply lookup_insert_eq.
Qed.

Lemma returned_dictionary_witness :
  ∃ (transition_points : gmap string Q) (s' : world),
    compute_deflections example_library "deflection_results.csv"
                        (initial_world example_console) =
      (ret transition_points, s') ∧
    dom transition_points =
      list_to_set (map Beam.name (BeamLibrary.get_beams example_library)) ∧
    (∀ n T, transition_points !! n = Some T →
            ∃ b, In b (BeamLibrary.get_beams example_library) ∧
                 Beam.name b = n ∧ 0 < T ∧ T < Beam.length b) ∧
    (∀ before b T after,
       combine (BeamLibrary.get_beams example_library) [1 # 200; 1 # 400] =
         before ++ (b, T) :: after →
       Forall (fun bT : Beam.t * Q => Beam.name (fst bT) ≠ Beam.name b) after →
       transition_points !! Beam.name b = Some T).
Proof.
  apply (returned_dictionary example_library "deflection_results.csv"
           example_console [1 # 200; 1 # 400]).
  - split; repeat constructor.
  - discriminate.
  - discriminate.
  - discriminate.
  - reflexivity.
Defined.

(** ** The records at the clamped end *)





(** * Properties of the plots *)

(** The slope in degrees that goes into a curve. *)
Lemma theta_degrees_value (x E1 E2 I L T w : Q) :
  0 < E1 → 0 < E2 → 0 < I →
  (if x <? T then theta1 x E1 I L w else theta2 x E1 E2 I L T w) =
  ret (val (if x <? T then theta1 x E1 I L w else theta2 x E1 E2 I L T w)).
Proof.
  intros HE1 HE2 HI. destruct (x <? T).
  - rewrite theta1_value by assumption. reflexivity.
  - rewrite theta2_value by assumption. reflexivity.
Qed.

Lemma samples_loop (xs acc : list Q) (E1 E2 I L T w : Q) :
  0 < E1 → 0 < E2 → 0 < I →
  fold_exc xs acc (fun theta_values x =>
    (theta <- (if x <? T then theta1 x E1 I L w
               else theta2 x E1 E2 I L T w) ;;
     let theta_degrees := degrees theta in
     ret (theta_values ++ [theta_degrees]))%exc) =
  ret (acc ++ map (fun x => degrees (val (if x <? T then theta1 x E1 I L w
                                          else theta2 x E1 E2 I L T w))) xs).
Proof.
  intros HE1 HE2 HI. revert acc.
  induction xs as [|x xs IH]; intros acc; cbn [fold_exc map].
  - now rewrite app_nil_r.
  - rewrite (theta_degrees_value x E1 E2 I L T w HE1 HE2 HI).
    cbn [bind ret]. fold (@ret (list Q)). rewrite IH.
    now rewrite <- app_assoc.
Qed.

Lemma theta_values_value (loads : list Load.t) (xs : list Q)
    (E1 E2 I L T : Q) :
  0 < E1 → 0 < E2 → 0 < I →
  theta_values loads xs E1 E2 I L T =
  ret (flat_map (fun load =>
         map (fun x => degrees (val (if x <? T
                                     then theta1 x E1 I L (Load.w load)
                                     else theta2 x E1 E2 I L T (Load.w load))))
             xs) loads).
Proof.
  intros HE1 HE2 HI. unfold theta_values.
  assert (∀ acc,
            fold_exc loads acc (fun theta_values load =>
              let w := Load.w load in
              fold_exc xs theta_values (fun theta_values x =>
                (theta <- (if x <? T then theta1 x E1 I L w
                           else theta2 x E1 E2 I L T w) ;;
                 let theta_degrees := degrees theta in
                 ret (theta_values ++ [theta_degrees]))%exc)) =
            ret (acc ++ flat_map (fun load =>
                   map (fun x => degrees (val (if x <? T
                                     then theta1 x E1 I L (Load.w load)
                                     else theta2 x E1 E2 I L T (Load.w load))))
                       xs) loads)) as H.
  { induction loads as [|load loads IH]; intros acc; cbn [fold_exc flat_map].
    - now rewrite app_nil_r.
    - cbv zeta. rewrite samples_loop by assumption.
      cbn [bind ret]. fold (@ret (list Q)). rewrite IH.
      now rewrite <- app_assoc. }
  apply (H []).
Qed.

Lemma lookup_map {A B} (f : A → B) (l : list A) (k : nat) :
  map f l !! k = option_map f (l !! k).
Proof.
  revert k. induction l as [|a l IH]; intros [|k]; cbn; auto.
Qed.

Lemma colors_lookup (n k : nat) :
  (k < n)%nat →
  colors n !! k =
  Some (Viridis (inject_Z (Z.of_nat k) / inject_Z (Z.of_nat n))).
Proof.
  intros Hk. unfold colors.
  rewrite lookup_map, lookup_seq_lt by exact Hk. reflexivity.
Qed.

Lemma product_list_prod {A} (l l' : list A) :
  flat_map (fun a => map (fun b => [a; b]) l') l =
  map (fun p : A * A => [fst p; snd p]) (list_prod l l').
Proof.
  induction l as [|a l IH]; cbn [flat_map list_prod map]; [reflexivity |].
  rewrite map_app, map_map, IH. reflexivity.
Qed.

Lemma list_prod_In_l {A} (l : list A) (p : A * A) :
  In p (list_prod l l) → In (fst p) l ∧ In (snd p) l.
Proof. destruct p as [a b]. apply in_prod_iff. Qed.

(** One pass of the loop over the pairs, with a single load. *)
Lemma plot_pair_one_load (materials : list Material.t) (load : Load.t)
    (beam : Beam.t) (T : Q) (k : nat) (pair : Material.t * Material.t)
    (c : canvas) (fig : figure) :
  0 < Material.E (fst pair) → 0 < Material.E (snd pair) →
  0 < Beam.moment_of_inertia beam →
  (k < length materials ^ 2)%nat →
  current c = Some fig →
  plot_pair [load] beam T (colors (length materials ^ 2)) k
            [fst pair; snd pair] c =
  (inr (S k),
   Canvas (printed c)
          (Some (Figure (figure_title fig)
                        (figure_curves fig
                         ++ [expected_curve materials load beam T k pair])))
          (shown c)).
Proof.
  intros HE1 HE2 HI Hk Hc. unfold plot_pair, gui_bind, gui_lift.
  change (arange 0 (Beam.length beam + (25 # 10000)) (25 # 10000))
    with (x_values (Beam.length beam)).
  rewrite theta_values_value by assumption.
  rewrite colors_lookup by exact Hk.
  unfold ret, gui_ret, plt_plot, current_figure. rewrite Hc.
  cbn [flat_map]. rewrite app_nil_r, !length_map, Nat.eqb_refl.
  reflexivity.
Qed.

Lemma pairs_loop_one_load (materials : list Material.t) (load : Load.t)
    (beam : Beam.t) (T : Q) :
  0 < Beam.moment_of_inertia beam →
  ∀ (pairs : list (Material.t * Material.t)) (k : nat) (c : canvas)
    (fig : figure),
    Forall (fun p => 0 < Material.E (fst p) ∧ 0 < Material.E (snd p)) pairs →
    (k + length pairs <= length materials ^ 2)%nat →
    current c = Some fig →
    gui_for_each_with (map (fun p => [fst p; snd p]) pairs) k
      (plot_pair [load] beam T (colors (length materials ^ 2))) c =
    (inr (k + length pairs)%nat,
     Canvas (printed c)
            (Some (Figure (figure_title fig)
                     (figure_curves fig
                      ++ imap (fun i => expected_curve materials load beam T
                                          (k + i))
                              pairs)))
            (shown c)).
Proof.
  intros HI. induction pairs as [|pair pairs IH]; intros k c fig HE Hk Hc.
  - cbn. unfold gui_ret. rewrite app_nil_r, Nat.add_0_r.
    destruct c as [pr cur sh]. cbn in Hc |- *. subst cur.
    destruct fig; reflexivity.
  - inversion HE as [|? ? [HE1 HE2] HEs]; subst.
    cbn [map gui_for_each_with length] in *. unfold gui_bind.
    rewrite (plot_pair_one_load materials load beam T k pair c fig)
      by (try assumption; lia).
    rewrite (IH (S k) _ (Figure (figure_title fig)
                           (figure_curves fig
                            ++ [expected_curve materials load beam T k pair])))
      by (try assumption; try reflexivity; lia).
    cbn [printed shown figure_title figure_curves imap].
    rewrite <- app_assoc. cbn [app].
    assert (imap (fun i => expected_curve materials load beam T (S k + i)) pairs
            = imap ((fun i => expected_curve materials load beam T (k + i)) ∘ S)
                   pairs) as ->.
    { apply imap_ext. intros i p _. cbn. now rewrite Nat.add_succ_r. }
    rewrite Nat.add_0_r.
    replace (S k + length pairs)%nat with (k + S (length pairs))%nat by lia.
    reflexivity.
Qed.

Lemma plot_beam_one_load (materials : list Material.t) (load : Load.t)
    (transition_points : gmap string Q) (beam : Beam.t) (c : canvas) :
  Forall (fun m => 0 < Material.E m) materials →
  0 < Beam.moment_of_inertia beam →
  plot_beam materials [load] transition_points beam c =
  (inr tt,
   Canvas (printed c ++ plot_log transition_points [beam]) None
          (shown c ++ [expected_figure materials load transition_points beam])).
Proof.
  intros HE HI. unfold plot_beam.
  unfold gui_bind at 1 2 3 4, plot_print, plt_figure, plt_title, current_figure.
  cbn [printed current shown figure_curves].
  unfold gui_bind at 1.
  rewrite product_2, product_list_prod.
  erewrite (pairs_loop_one_load materials load beam _ HI
              (list_prod materials materials) 0 _
              (Figure (String.append "Angular Deflection Curves for Beam: "
                                     (Beam.name beam)) []));
    [| | | reflexivity].
  - unfold plt_show. cbn [printed current shown figure_title figure_curves app].
    unfold plot_log, expected_figure. cbn [flat_map].
    rewrite app_nil_r, <- app_assoc. reflexivity.
  - apply List.Forall_forall. intros p Hp. apply list_prod_In_l in Hp.
    pose proof (proj1 (List.Forall_forall _ _) HE) as HE'.
    split; apply HE'; tauto.
  - rewrite length_prod, Nat.pow_2_r. lia.
Qed.

Lemma beams_loop_one_load (materials : list Material.t) (load : Load.t)
    (transition_points : gmap string Q) (beams : list Beam.t) (c : canvas) :
  Forall (fun m => 0 < Material.E m) materials →
  Forall (fun b => 0 < Beam.moment_of_inertia b) beams →
  gui_for_each beams (plot_beam materials [load] transition_points) c =
  (inr tt,
   Canvas (printed c ++ plot_log transition_points beams)
          (match beams with [] => current c | _ :: _ => None end)
          (shown c ++ map (expected_figure materials load transition_points)
                          beams)).
Proof.
  intros HE HI. revert c.
  induction HI as [|beam beams HIb _ IH]; intros c.
  - cbn. unfold gui_ret. rewrite !app_nil_r. destruct c; reflexivity.
  - cbn [gui_for_each]. unfold gui_bind.
    rewrite (plot_beam_one_load materials load transition_points beam c HE HIb).
    rewrite IH. cbn [printed current shown map].
    unfold plot_log. cbn [flat_map app].
    rewrite <- !app_assoc. cbn [app].
    destruct beams; reflexivity.
Qed.

Lemma plot_deflections_one_load (library : BeamLibrary.t)
    (transition_points : gmap string Q) (c : canvas) (load : Load.t) :
  valid_library library →
  BeamLibrary.get_beams library ≠ [] →
  BeamLibrary.get_materials library ≠ [] →
  BeamLibrary.get_loads library = [load] →
  plot_deflections library transition_points c =
  (inr tt,
   Canvas (printed c ++ plot_log transition_points
                          (BeamLibrary.get_beams library)) None
          (shown c ++ map (expected_figure (BeamLibrary.get_materials library)
                                           load transition_points)
                          (BeamLibrary.get_beams library))).
Proof.
  intros [HE HI] Hb Hm Hl.
  unfold plot_deflections. rewrite Hl.
  destruct (BeamLibrary.get_beams library) as [|beam beams] eqn:Hbeams;
    [congruence |].
  destruct (BeamLibrary.get_materials library) as [|material materials]
    eqn:Hmaterials; [congruence |].
  apply (beams_loop_one_load (material :: materials) load transition_points
           (beam :: beams) c HE HI).
Qed.

(** X13. With exactly one load, [plot_deflections] returns after showing one
    figure per beam, in the order of the beams; each figure carries one curve
    per ordered pair of materials (first material major), labelled
    "material1 & material2", its slopes in degrees over the samples of the
    beam and not rounded, in the colours [i / M^2] for [i = 0 .. M^2 - 1] -
    the colour index never leaves the list.  Each beam is plotted with the
    transition point stored under its name, or with [L / 2] when there is
    none, and that value is printed. *)
Theorem plot_one_load (library : BeamLibrary.t)
    (transition_points : gmap string Q) (c : canvas) (load : Load.t) :
  valid_library library →
  BeamLibrary.get_beams library ≠ [] →
  BeamLibrary.get_materials library ≠ [] →
  BeamLibrary.get_loads library = [load] →
  let materials := BeamLibrary.get_materials library in
  let beams := BeamLibrary.get_beams library in
  plot_deflections library transition_points c =
  (inr tt,
   Canvas (printed c ++ plot_log transition_points beams) None
          (shown c ++ map (expected_figure materials load transition_points)
                          beams)) ∧
  Forall (fun beam =>
            length (figure_curves
                      (expected_figure materials load transition_points beam))
            = (length materials ^ 2)%nat)
         beams.
Proof.
  intros Hvalid Hb Hm Hl materials beams. subst materials beams. split.
  - apply plot_deflections_one_load; assumption.
  - apply List.Forall_forall. intros beam _.
    unfold expected_figure. cbn [figure_curves].
    rewrite length_imap, length_prod, Nat.pow_2_r. reflexivity.
Qed.

Lemma plot_one_load_witness :
  let library :=
    BeamLibrary.Build
      [Material.Build "steel" 200; Material.Build "aluminium" 70]
      [Beam.Build "stub" (1 # 400) (1 # 3); Beam.Build "short" (1 # 100) (1 # 3)]
      [Load.Build "light" 1000] in
  let materials := BeamLibrary.get_materials library in
  let beams := BeamLibrary.get_beams library in
  let load := Load.Build "light" 1000 in
  let transition_points := <["stub" := 1 # 1000]> (∅ : gmap string Q) in
  plot_deflections library transition_points (Canvas [] None []) =
  (inr tt,
   Canvas ([] ++ plot_log transition_points beams) None
          ([] ++ map (expected_figure materials load transition_points) beams)) ∧
  Forall (fun beam =>
            length (figure_curves
                      (expected_figure materials load transition_points beam))
            = (length materials ^ 2)%nat)
         beams.
Proof.
  apply (plot_one_load
           (BeamLibrary.Build
              [Material.Build "steel" 200; Material.Build "aluminium" 70]
              [Beam.Build "stub" (1 # 400) (1 # 3);
               Beam.Build "short" (1 # 100) (1 # 3)]
              [Load.Build "light" 1000])
           (<["stub" := 1 # 1000]> ∅) (Canvas [] None [])
           (Load.Build "light" 1000)).
  - split; repeat constructor.
  - discriminate.
  - discriminate.
  - reflexivity.
Defined.

Lemma x_values_nonempty (L : Q) : 0 < L → (0 < length (x_values L))%nat.
Proof.
  intros HL. rewrite x_values_length.
  pose proof (ceiling_pos L HL). lia.
Qed.

(** With two loads or more the first curve of a beam of positive length
    cannot be drawn. *)
Lemma plot_pair_several_loads (load1 load2 : Load.t) (loads : list Load.t)
    (beam : Beam.t) (T : Q) (n : nat) (material1 material2 : Material.t)
    (c : canvas) :
  0 < Material.E material1 → 0 < Material.E material2 →
  0 < Beam.moment_of_inertia beam → 0 < Beam.length beam →
  (0 < n)%nat →
  plot_pair (load1 :: load2 :: loads) beam T (colors n) 0
            [material1; material2] c =
  (inl (Model ValueError), c).
Proof.
  intros HE1 HE2 HI HL Hn. unfold plot_pair, gui_bind, gui_lift.
  change (arange 0 (Beam.length beam + (25 # 10000)) (25 # 10000))
    with (x_values (Beam.length beam)).
  rewrite theta_values_value by assumption.
  rewrite colors_lookup by exact Hn.
  unfold ret, gui_ret, plt_plot.
  rewrite (length_flat_map_const _ _ (length (x_values (Beam.length beam))))
    by (intros load; apply length_map).
  pose proof (x_values_nonempty _ HL) as Hlen.
  destruct (Nat.eqb_spec (length (x_values (Beam.length beam)))
              (length (load1 :: load2 :: loads)
               * length (x_values (Beam.length beam)))) as [Heq | _];
    [| reflexivity].
  cbn [length] in Heq. nia.
Qed.

Lemma plot_deflections_several_loads (library : BeamLibrary.t)
    (transition_points : gmap string Q) (c : canvas)
    (beam : Beam.t) (beams : list Beam.t)
    (load1 load2 : Load.t) (loads : list Load.t) :
  valid_library library →
  BeamLibrary.get_beams library = beam :: beams →
  BeamLibrary.get_loads library = load1 :: load2 :: loads →
  BeamLibrary.get_materials library ≠ [] →
  0 < Beam.length beam →
  plot_deflections library transition_points c =
  (inl (Model ValueError),
   Canvas (printed c ++ plot_log transition_points [beam])
          (Some (Figure (String.append "Angular Deflection Curves for Beam: "
                                       (Beam.name beam)) []))
          (shown c)).
Proof.
  intros [HE HI] Hb Hl Hm HL. unfold plot_deflections. rewrite Hb, Hl in *.
  destruct (BeamLibrary.get_materials library) as [|material materials]
    eqn:Hmaterials; [congruence |].
  inversion HI as [|? ? HIb _]; subst.
  inversion HE as [|? ? HEm _]; subst.
  destruct (product_head material materials) as [pairs Hpairs].
  cbn [gui_for_each]. unfold gui_bind at 1. unfold plot_beam.
  unfold gui_bind at 1 2 3 4, plot_print, plt_figure, plt_title, current_figure.
  cbn [printed current shown figure_curves].
  unfold gui_bind at 1. rewrite Hpairs. cbn [gui_for_each_with].
  unfold gui_bind at 1.
  rewrite plot_pair_several_loads; try assumption.
  - unfold plot_log. cbn [flat_map]. rewrite app_nil_r, <- app_assoc.
    reflexivity.
  - cbn [length]. rewrite Nat.pow_2_r. lia.
Qed.

(** X14. With two loads or more [plot_deflections] never shows a figure:
    every curve collects the slopes of all loads over the samples of one
    load, so the first [plt.plot] of the first beam raises [ValueError]; the
    figure of that beam is left open and empty. *)
Theorem plot_several_loads (library : BeamLibrary.t)
    (transition_points : gmap string Q) (c : canvas)
    (beam : Beam.t) (beams : list Beam.t)
    (load1 load2 : Load.t) (loads : list Load.t) :
  valid_library library →
  BeamLibrary.get_beams library = beam :: beams →
  BeamLibrary.get_loads library = load1 :: load2 :: loads →
  BeamLibrary.get_materials library ≠ [] →
  0 < Beam.length beam →
  plot_deflections library transition_points c =
  (inl (Model ValueError),
   Canvas (printed c ++ plot_log transition_points [beam])
          (Some (Figure (String.append "Angular Deflection Curves for Beam: "
                                       (Beam.name beam)) []))
          (shown c)).
Proof.
  intros Hvalid Hb Hl Hm HL.
  apply (plot_deflections_several_loads library transition_points c beam beams
           load1 load2 loads); assumption.
Qed.

Lemma plot_several_loads_witness :
  plot_deflections
    (BeamLibrary.Build [Material.Build "steel" 200]
       [Beam.Build "stub" (1 # 400) (1 # 3)]
       [Load.Build "light" 1000; Load.Build "heavy" 2000])
    ∅ (Canvas [] None []) =
  (inl (Model ValueError),
   Canvas ([] ++ plot_log ∅ [Beam.Build "stub" (1 # 400) (1 # 3)])
          (Some (Figure (String.append "Angular Deflection Curves for Beam: "
                                       "stub") []))
          []).
Proof.
  apply (plot_several_loads
           (BeamLibrary.Build [Material.Build "steel" 200]
              [Beam.Build "stub" (1 # 400) (1 # 3)]
              [Load.Build "light" 1000; Load.Build "heavy" 2000])
           ∅ (Canvas [] None []) (Beam.Build "stub" (1 # 400) (1 # 3)) []
           (Load.Build "light" 1000) (Load.Build "heavy" 2000) []).
  - split; repeat constructor.
  - reflexivity.
  - reflexivity.
  - discriminate.
  - reflexivity.
Defined.

(** * Properties of [main] *)

Lemma recorded_distinct_names (beams : list Beam.t) :
  NoDup (map Beam.name beams) →
  ∀ (Ts : list Q) (tp : gmap string Q),
    length Ts = length beams →
    Forall2 (fun b T => recorded tp (combine beams Ts) !! Beam.name b = Some T)
            beams Ts.
Proof.
  induction beams as [|b beams IH]; intros Hnd [|T Ts] tp Hlen;
    try discriminate; [constructor |].
  cbn [map] in Hnd. apply NoDup_cons in Hnd. destruct Hnd as [Hb Hnd].
  cbn [combine]. rewrite recorded_cons. cbn [fst snd].
  constructor.
  - rewrite recorded_lookup_later; [apply lookup_insert_eq |].
    apply List.Forall_forall. intros [b' T'] Hin Heq. apply Hb.
    cbn [fst] in Heq. rewrite <- Heq. apply list_elem_of_In.
    apply in_map. eapply in_combine_l. eassumption.
  - apply IH; [exact Hnd | now injection Hlen].
Qed.

Lemma recorded_has_every_name (beams : list Beam.t) (Ts : list Q)
    (lines : list console_line) :
  answers beams lines = Some Ts →
  Forall (fun b => ∃ T b', recorded ∅ (combine beams Ts) !! Beam.name b = Some T ∧
                           In b' beams ∧ Beam.name b' = Beam.name b ∧
                           0 < T ∧ T < Beam.length b')
         beams.
Proof.
  intros Hans. apply List.Forall_forall. intros b Hb.
  assert (Beam.name b ∈ dom (recorded ∅ (combine beams Ts))) as Hdom.
  { rewrite recorded_dom, combine_names
      by (eapply answers_length; eassumption).
    apply elem_of_union_r, elem_of_list_to_set, list_elem_of_In.
    apply in_map. exact Hb. }
  apply elem_of_dom in Hdom. destruct Hdom as [T HT].
  destruct (recorded_lookup_origin _ _ _ _ HT) as [H | (b' & Hin & Hn)];
    [rewrite lookup_empty in H; discriminate |].
  exists T, b'. split; [exact HT |].
  split; [eapply in_combine_l; eassumption |]. split; [exact Hn |].
  exact (proj1 (List.Forall_forall _ _) (answers_inside _ _ _ Hans) _ Hin).
Qed.

(** X15. [main] on a library with exactly one load and a console that
    answers every prompt: the CSV file is written in full, then one figure
    per beam is shown, and the script reports completion.  The plots never
    fall back on [L / 2]: every beam name is a key of the dictionary handed
    over, and when the beam names are distinct each beam is plotted with the
    very transition point entered for it. *)
Theorem main_one_load (library : BeamLibrary.t) (lines : list console_line)
    (Ts : list Q) (c : canvas) (load : Load.t) :
  valid_library library →
  BeamLibrary.get_beams library ≠ [] →
  BeamLibrary.get_materials library ≠ [] →
  BeamLibrary.get_loads library = [load] →
  answers (BeamLibrary.get_beams library) lines = Some Ts →
  let materials := BeamLibrary.get_materials library in
  let beams := BeamLibrary.get_beams library in
  let transition_points := recorded ∅ (combine beams Ts) in
  (∃ s',
     main library (initial_world lines) c =
       (inr tt, s',
        Canvas (printed c ++ plot_log transition_points beams
                ++ [ScriptCompleted])
               None
               (shown c ++ map (expected_figure materials load
                                                transition_points) beams)) ∧
     file s' = Some (header :: beam_major_records materials [load]
                                 (combine beams Ts))) ∧
  Forall (fun b => ∃ T b', transition_points !! Beam.name b = Some T ∧
                           In b' beams ∧ Beam.name b' = Beam.name b ∧
                           0 < T ∧ T < Beam.length b')
         beams ∧
  (NoDup (map Beam.name beams) →
   Forall2 (fun b T => transition_points !! Beam.name b = Some T) beams Ts).
Proof.
  intros Hvalid Hb Hm Hl Hans materials beams transition_points.
  subst materials beams transition_points.
  split; [| split].
  - destruct (compute_deflections_run library "deflection_results.csv" lines Ts
                Hvalid Hans) as (tp & s' & Hrun & _ & Hmore).
    destruct (Hmore Hb ltac:(rewrite Hl; discriminate) Hm) as [Hfile ->].
    exists s'. split.
    + unfold main. rewrite Hrun. unfold ret.
      rewrite (plot_deflections_one_load library _ c load Hvalid Hb Hm Hl).
      cbn [printed current shown]. rewrite <- app_assoc. reflexivity.
    + rewrite Hfile, Hl. reflexivity.
  - eapply recorded_has_every_name. eassumption.
  - intros Hnd. apply recorded_distinct_names; [exact Hnd |].
    eapply answers_length. eassumption.
Qed.

Lemma main_one_load_witness :
  let materials := BeamLibrary.get_materials example_library in
  let beams := BeamLibrary.get_beams example_library in
  let transition_points := recorded ∅ (combine beams [1 # 200; 1 # 400]) in
  (∃ s',
     main example_library (initial_world example_console) (Canvas [] None []) =
       (inr tt, s',
        Canvas ([] ++ plot_log transition_points beams ++ [ScriptCompleted])
               None
               ([] ++ map (expected_figure materials (Load.Build "light" 1000)
                                           transition_points) beams)) ∧
     file s' = Some (header :: beam_major_records materials
                                 [Load.Build "light" 1000]
                                 (combine beams [1 # 200; 1 # 400]))) ∧
  Forall (fun b => ∃ T b', transition_points !! Beam.name b = Some T ∧
                           In b' beams ∧ Beam.name b' = Beam.name b ∧
                           0 < T ∧ T < Beam.length b')
         beams ∧
  (NoDup (map Beam.name beams) →
   Forall2 (fun b T => transition_points !! Beam.name b = Some T)
           beams [1 # 200; 1 # 400]).
Proof.
  apply (main_one_load example_library example_console [1 # 200; 1 # 400]
           (Canvas [] None []) (Load.Build "light" 1000)).
  - split; repeat constructor.
  - discriminate.
  - discriminate.
  - reflexivity.
  - reflexivity.
Defined.

(** X16. [main] on a library with two loads or more and a console that
    answers every prompt: the CSV file is written in full, with the records
    of every load, and then the first plot raises [ValueError]; no figure is
    shown and the completion message is not printed. *)
Theorem main_several_loads (library : BeamLibrary.t)
    (lines : list console_line) (Ts : list Q) (c : canvas)
    (beam : Beam.t) (beams : list Beam.t)
    (load1 load2 : Load.t) (loads : list Load.t) :
  valid_library library →
  BeamLibrary.get_beams library = beam :: beams →
  BeamLibrary.get_loads library = load1 :: load2 :: loads →
  BeamLibrary.get_materials library ≠ [] →
  answers (BeamLibrary.get_beams library) lines = Some Ts →
  ∃ s',
    main library (initial_world lines) c =
      (inl (Model ValueError), s',
       Canvas (printed c
               ++ plot_log (recorded ∅ (combine (beam :: beams) Ts)) [beam])
              (Some (Figure (String.append
                               "Angular Deflection Curves for Beam: "
                               (Beam.name beam)) []))
              (shown c)) ∧
    file s' =
      Some (header ::
            beam_major_records (BeamLibrary.get_materials library)
              (load1 :: load2 :: loads) (combine (beam :: beams) Ts)).
Proof.
  intros Hvalid Hb Hl Hm Hans.
  destruct (compute_deflections_run library "deflection_results.csv" lines Ts
              Hvalid Hans) as (tp & s' & Hrun & _ & Hmore).
  destruct (Hmore ltac:(rewrite Hb; discriminate)
                  ltac:(rewrite Hl; discriminate) Hm) as [Hfile ->].
  pose proof (answers_lengths_pos _ _ _ Hans) as Hpos.
  rewrite Hb in Hpos. inversion Hpos as [|? ? HL _]; subst.
  exists s'. split.
  - unfold main. rewrite Hrun. unfold ret.
    rewrite (plot_deflections_several_loads library _ c beam beams
               load1 load2 loads Hvalid Hb Hl Hm HL).
    rewrite Hb. reflexivity.
  - rewrite Hfile, Hb, Hl. reflexivity.
Qed.

Lemma main_several_loads_witness :
  let library :=
    BeamLibrary.Build [Material.Build "steel" 200]
      [Beam.Build "stub" (1 # 400) (1 # 3)]
      [Load.Build "light" 1000; Load.Build "heavy" 2000] in
  ∃ s',
    main library (initial_world [FloatLine (1 # 1000)]) (Canvas [] None []) =
      (inl (Model ValueError), s',
       Canvas ([] ++ plot_log
                       (recorded ∅ (combine [Beam.Build "stub" (1 # 400) (1 # 3)]
                                            [1 # 1000]))
                       [Beam.Build "stub" (1 # 400) (1 # 3)])
              (Some (Figure (String.append
                               "Angular Deflection Curves for Beam: " "stub") []))
              []) ∧
    file s' =
      Some (header ::
            beam_major_records (BeamLibrary.get_materials library)
              [Load.Build "light" 1000; Load.Build "heavy" 2000]
              (combine [Beam.Build "stub" (1 # 400) (1 # 3)] [1 # 1000])).
Proof.
  apply (main_several_loads
           (BeamLibrary.Build [Material.Build "steel" 200]
              [Beam.Build "stub" (1 # 400) (1 # 3)]
              [Load.Build "light" 1000; Load.Build "heavy" 2000])
           [FloatLine (1 # 1000)] [1 # 1000] (Canvas [] None [])
           (Beam.Build "stub" (1 # 400) (1 # 3)) []
           (Load.Build "light" 1000) (Load.Build "heavy" 2000) []).
  - split; repeat constructor.
  - reflexivity.
  - reflexivity.
  - discriminate.
  - reflexivity.
Defined.

(** X17. [main] on a library with an empty collection returns: both
    functions report the same collection - the first empty one in the order
    beams, loads, materials -, nothing is read from the console, no file is
    written, no figure is shown, and the completion message is printed. *)
Theorem main_empty_collection (library : BeamLibrary.t)
    (lines : list console_line) (c : canvas) :
  BeamLibrary.get_beams library = [] ∨
  BeamLibrary.get_loads library = [] ∨
  BeamLibrary.get_materials library = [] →
  ∃ msg pmsg,
    main library (initial_world lines) c =
      (inr tt, World lines [msg] None,
       Canvas (printed c ++ [pmsg; ScriptCompleted]) (current c) (shown c)) ∧
    (msg = NoBeams ∧ pmsg = PlotNoBeams ∧ BeamLibrary.get_beams library = [] ∨
     msg = NoLoads ∧ pmsg = PlotNoLoads ∧
       BeamLibrary.get_beams library ≠ [] ∧ BeamLibrary.get_loads library = [] ∨
     msg = NoMaterials ∧ pmsg = PlotNoMaterials ∧
       BeamLibrary.get_beams library ≠ [] ∧ BeamLibrary.get_loads library ≠ [] ∧
       BeamLibrary.get_materials library = []).
Proof.
  intros Hempty. unfold main, compute_deflections, plot_deflections.
  destruct (BeamLibrary.get_beams library) as [|beam beams].
  { exists NoBeams, PlotNoBeams. split; [| auto].
    cbn. rewrite <- app_assoc. reflexivity. }
  destruct (BeamLibrary.get_loads library) as [|load loads].
  { exists NoLoads, PlotNoLoads. split; [| right; left; auto].
    cbn. rewrite <- app_assoc. reflexivity. }
  destruct (BeamLibrary.get_materials library) as [|material materials].
  { exists NoMaterials, PlotNoMaterials. split; [| right; right; auto 6].
    cbn. rewrite <- app_assoc. reflexivity. }
  destruct Hempty as [H | [H | H]]; discriminate.
Qed.

Lemma main_empty_collection_witness :
  let library := BeamLibrary.Build [] [Beam.Build "short" 4 1] [] in
  ∃ msg pmsg,
    main library (initial_world example_console) (Canvas [] None []) =
      (inr tt, World example_console [msg] None,
       Canvas ([] ++ [pmsg; ScriptCompleted]) None []) ∧
    (msg = NoBeams ∧ pmsg = PlotNoBeams ∧ BeamLibrary.get_beams library = [] ∨
     msg = NoLoads ∧ pmsg = PlotNoLoads ∧
       BeamLibrary.get_beams library ≠ [] ∧ BeamLibrary.get_loads library = [] ∨
     msg = NoMaterials ∧ pmsg = PlotNoMaterials ∧
       BeamLibrary.get_beams library ≠ [] ∧ BeamLibrary.get_loads library ≠ [] ∧
       BeamLibrary.get_materials library = []).
Proof.
  apply (main_empty_collection
           (BeamLibrary.Build [] [Beam.Build "short" 4 1] [])
           example_console (Canvas [] None [])).
  right. left. reflexivity.
Defined.

(** * Stiffness *)






(** * The end of the sample grid *)


